(** * RSS news fetcher (scripts/fetch_rss_news.py): model and properties

    A shallow embedding of the feed-to-webhook script.  Python [str] values
    are modelled as lists of characters; a character is a code point in
    U+0000..U+00FF (Rocq's [ascii]), and the character classes below are the
    ones Python 3 uses on that range ([str.lower], [str.strip], and the
    classes [\w], [\d] of the [re] module on [str] patterns). *)

From Stdlib Require Import List Ascii String Bool Arith NArith Lia.
Import ListNotations.

Set Warnings "-register-all,-abstract-large-number".

Open Scope string_scope.
Open Scope list_scope.

(** ** Text *)

Definition text := list ascii.

(** A string literal of the source, as a list of characters. *)
Definition txt (s : string) : text := list_ascii_of_string s.

Definition code (c : ascii) : N := N_of_ascii c.

Definition in_range (lo hi : N) (c : ascii) : bool :=
  (N.leb lo (code c) && N.leb (code c) hi)%bool.

Definition is_upper (c : ascii) : bool := in_range 65 90 c.
Definition is_lower (c : ascii) : bool := in_range 97 122 c.

(** The class [[a-zA-Z]]. *)
Definition is_letter (c : ascii) : bool := is_upper c || is_lower c.

(** The class [\d]: on this range, the ten ASCII digits. *)
Definition is_digit (c : ascii) : bool := in_range 48 57 c.

(** Characters that [str.lower] changes: A-Z and the capital letters
    U+00C0..U+00DE, the multiplication sign U+00D7 apart. *)
Definition has_lowercase (c : ascii) : bool :=
  is_upper c || (in_range 192 222 c && negb (N.eqb (code c) 215)).

Definition lower_char (c : ascii) : ascii :=
  if has_lowercase c then ascii_of_N (code c + 32) else c.

(** [s.lower()] *)
Definition lower (s : text) : text := map lower_char s.

(** [s.upper()], on the characters it is applied to in this program (the
    matches of the CVE pattern, which are ASCII). *)
Definition upper_char (c : ascii) : ascii :=
  if is_lower c then ascii_of_N (code c - 32) else c.

Definition upper (s : text) : text := map upper_char s.

(** The class [\w]: letters, digits and the underscore, with the Latin-1
    letters and numerics that [str.isalnum] accepts. *)
Definition is_word (c : ascii) : bool :=
  is_letter c || is_digit c || N.eqb (code c) 95
  || N.eqb (code c) 170 || N.eqb (code c) 178 || N.eqb (code c) 179
  || N.eqb (code c) 181 || N.eqb (code c) 185 || N.eqb (code c) 186
  || in_range 188 190 c || in_range 192 214 c || in_range 216 246 c
  || in_range 248 255 c.

(** Whitespace removed by [str.strip()]. *)
Definition is_space (c : ascii) : bool :=
  in_range 9 13 c || in_range 28 32 c
  || N.eqb (code c) 133 || N.eqb (code c) 160.

Fixpoint lstrip (s : text) : text :=
  match s with
  | c :: s' => if is_space c then lstrip s' else s
  | [] => []
  end.

Fixpoint rstrip (s : text) : text :=
  match s with
  | c :: s' =>
      match rstrip s' with
      | [] => if is_space c then [] else [c]
      | r => c :: r
      end
  | [] => []
  end.

(** [s.strip()] *)
Definition strip (s : text) : text := rstrip (lstrip s).

(** [k] is a prefix of [t]. *)
Fixpoint starts_with (k t : text) : bool :=
  match k, t with
  | [], _ => true
  | _ :: _, [] => false
  | a :: k', b :: t' => Ascii.eqb a b && starts_with k' t'
  end.

(** [k in t] on strings: [k] occurs at some position of [t]. *)
Fixpoint contains (k t : text) : bool :=
  starts_with k t ||
  match t with
  | [] => false
  | _ :: t' => contains k t'
  end.

(** The substring relation, stated without reference to a search. *)
Definition occurs (k t : text) : Prop :=
  exists pre post, t = pre ++ k ++ post.

(** ** Configuration tables

    The two keyword tables are dict literals; iteration over a dict follows
    insertion order, so each is a list of pairs in the order written. *)

Definition keyword_table := list (string * list text).

Definition CATEGORY_KEYWORDS : keyword_table :=
  [ ("vulnerabilities",
      map txt ["vulnerability"; "cve"; "exploit"; "zero-day"; "patch";
               "security flaw"; "bug"]);
    ("ransomware",
      map txt ["ransomware"; "lockbit"; "blackcat"; "alphv"; "conti";
               "ransom"]);
    ("data-breaches",
      map txt ["breach"; "leak"; "exposed"; "compromised"; "stolen data"]);
    ("malware",
      map txt ["malware"; "trojan"; "virus"; "backdoor"; "rat";
               "infostealer"; "botnet"]);
    ("phishing",
      map txt ["phishing"; "scam"; "social engineering"; "bec";
               "email attack"]);
    ("threat-actors",
      map txt ["apt"; "threat actor"; "hacker group"; "nation-state";
               "lazarus"; "apt29"]);
    ("compliance",
      map txt ["compliance"; "regulation"; "gdpr"; "hipaa"; "pci"]) ].

Definition SEVERITY_KEYWORDS : keyword_table :=
  [ ("critical",
      map txt ["critical"; "urgent"; "emergency"; "zero-day";
               "actively exploited"; "rce"]);
    ("high", map txt ["high"; "severe"; "major"; "important"; "exploit"]);
    ("low", map txt ["low"; "minor"; "informational"]) ].

(** ** Classifier *)

(** The inner loop [for keyword in keywords: if keyword in text: return ...]:
    [true] when the [return] is reached. *)
Fixpoint keyword_loop (keywords : list text) (t : text) : bool :=
  match keywords with
  | [] => false
  | keyword :: rest => if contains keyword t then true else keyword_loop rest t
  end.

(** The outer loop over the table's items; [None] when it falls through. *)
Fixpoint table_loop (table : keyword_table) (t : text) : option string :=
  match table with
  | [] => None
  | (label, keywords) :: rest =>
      if keyword_loop keywords t then Some label else table_loop rest t
  end.

(** The result of the outer loop, with the value returned after it. *)
Definition table_result (default : string) (t : text) (table : keyword_table)
    : string :=
  match table_loop table t with
  | Some label => label
  | None => default
  end.

Definition categorize_article (title content : text) : string :=
  let t := lower (title ++ txt " " ++ content) in
  match table_loop CATEGORY_KEYWORDS t with
  | Some category => category
  | None => "industry-news"
  end.

Definition determine_severity (title content : text) : string :=
  let t := lower (title ++ txt " " ++ content) in
  match table_loop SEVERITY_KEYWORDS t with
  | Some severity => severity
  | None => "medium"
  end.

(** *** First-match classification, as the specification words it *)

(** No keyword of any entry of [table] occurs in [t]. *)
Definition no_keyword_occurs (table : keyword_table) (t : text) : Prop :=
  forall label keywords k,
    In (label, keywords) table -> In k keywords -> ~ occurs k t.

(** [r] is the label of the first entry of [table], in declared order, one of
    whose keywords occurs in [t]; or [default] when there is none. *)
Inductive first_match_of (table : keyword_table) (default : string)
    (t : text) : string -> Prop :=
| fm_hit : forall pre K keywords post k,
    table = pre ++ (K, keywords) :: post ->
    In k keywords -> occurs k t ->
    no_keyword_occurs pre t ->
    first_match_of table default t K
| fm_default :
    no_keyword_occurs table t ->
    first_match_of table default t default.

(** ** Regular-expression search ([re.findall]) *)

(** The longest prefix of [s] whose characters satisfy [p]: a greedy [p*]. *)
Fixpoint take_while (p : ascii -> bool) (s : text) : text :=
  match s with
  | c :: s' => if p c then c :: take_while p s' else []
  | [] => []
  end.

(** The character before a position: [prev] at the start of the scanned
    text, the last character passed afterwards. *)
Definition ctx_at (prev : option ascii) (pre : text) : option ascii :=
  fold_left (fun _ c => Some c) pre prev.

(** [re.findall] for a pattern that matches no empty string.  [m prev s] is
    the pattern's match anchored at the start of [s], [prev] being the
    character before it.  The scan goes left to right: where the pattern
    matches, the match is recorded and the scan resumes after it ([skip]
    counts the characters of that match still to be passed); elsewhere it
    moves one character on. *)
Fixpoint findall_from (m : option ascii -> text -> option text)
    (prev : option ascii) (skip : nat) (s : text) : list text :=
  match s with
  | [] => []
  | c :: s' =>
      match skip with
      | S n => findall_from m (Some c) n s'
      | O =>
          match m prev s with
          | Some w => w :: findall_from m (Some c) (List.length w - 1) s'
          | None => findall_from m (Some c) 0 s'
          end
      end
  end.

Definition findall (m : option ascii -> text -> option text) (s : text) :=
  findall_from m None 0 s.

(** A literal of the pattern against a character, under [re.IGNORECASE]. *)
Definition ieq (lit c : ascii) : bool :=
  Ascii.eqb (lower_char c) (lower_char lit).

(** The pattern [CVE-\d{4}-\d+] with [re.IGNORECASE], anchored at the start
    of [s]; the final [\d+] is greedy. *)
Definition match_cve (s : text) : option text :=
  match s with
  | c :: v :: e :: h1 :: d1 :: d2 :: d3 :: d4 :: h2 :: d5 :: rest =>
      if ieq "C" c && ieq "V" v && ieq "E" e && Ascii.eqb h1 "-"
         && is_digit d1 && is_digit d2 && is_digit d3 && is_digit d4
         && Ascii.eqb h2 "-" && is_digit d5
      then Some ([c; v; e; h1; d1; d2; d3; d4; h2; d5] ++ take_while is_digit rest)
      else None
  | _ => None
  end.

Definition text_eq_dec : forall a b : text, {a = b} + {a <> b} :=
  list_eq_dec ascii_dec.

(** [extract_cves]: [list(set(cve.upper() for cve in matches))].  Python
    leaves the order of a set unspecified; the model lists each element once,
    and the properties below speak of membership only. *)
Definition extract_cves (t : text) : list text :=
  nodup text_eq_dec (map upper (findall (fun _ => match_cve) t)).

(** Word boundary [\b] between the characters [prev] and [next], either of
    which may be missing at an end of the string. *)
Definition is_word_opt (c : option ascii) : bool :=
  match c with
  | Some c => is_word c
  | None => false
  end.

Definition word_boundary (prev next : option ascii) : bool :=
  xorb (is_word_opt prev) (is_word_opt next).

(** [[a-zA-Z]{4,}\b] after [n] letters have been taken: accept when at least
    four were taken and a boundary follows, otherwise give one letter back. *)
Fixpoint backtrack (n : nat) (s : text) : option text :=
  match n with
  | O => None
  | S n' =>
      if (4 <=? n)%nat && word_boundary (nth_error s n') (nth_error s n)
      then Some (firstn n s)
      else backtrack n' s
  end.

(** The pattern [\b[a-zA-Z]{4,}\b] anchored at the start of [s]. *)
Definition match_tag (prev : option ascii) (s : text) : option text :=
  if word_boundary prev (nth_error s 0)
  then backtrack (List.length (take_while is_letter s)) s
  else None.

Definition stop_words : list text :=
  map txt ["the"; "a"; "an"; "is"; "in"; "on"; "at"; "for"; "to"; "of";
           "and"; "or"; "with"; "by"; "from"].

Definition text_eqb (a b : text) : bool :=
  if text_eq_dec a b then true else false.

Definition is_stop_word (w : text) : bool := existsb (text_eqb w) stop_words.

Definition generate_tags (title : text) : list text :=
  let words := findall match_tag (lower title) in
  firstn 5 (filter (fun w => negb (is_stop_word w)) words).

(** *** The CVE pattern, as the specification words it *)

Definition digit (d : ascii) : Prop := is_digit d = true.

(** [w] reads [CVE-], exactly four digits, a hyphen and one or more digits,
    the three letters in either case. *)
Definition cve_shaped (w : text) : Prop :=
  exists c v e d1 d2 d3 d4 ds,
    w = [c; v; e; "-"; d1; d2; d3; d4; "-"]%char ++ ds /\
    (c = "C" \/ c = "c")%char /\ (v = "V" \/ v = "v")%char /\
    (e = "E" \/ e = "e")%char /\
    digit d1 /\ digit d2 /\ digit d3 /\ digit d4 /\
    ds <> [] /\ Forall digit ds.

(** [post] does not begin with a digit. *)
Definition no_digit_next (post : text) : Prop :=
  match post with
  | d :: _ => is_digit d = false
  | [] => True
  end.

(** [w] is an occurrence of the pattern in [t], taken with every digit that
    follows it. *)
Definition cve_occurrence (t w : text) : Prop :=
  exists pre post, t = pre ++ w ++ post /\ cve_shaped w /\ no_digit_next post.

(** *** Tokens, as the specification words them *)

Definition close_run (cur : text) : list text :=
  match cur with
  | [] => []
  | _ :: _ => [cur]
  end.

(** The maximal runs of characters satisfying [p], in order of appearance;
    [cur] is the run being read. *)
Fixpoint runs_from (p : ascii -> bool) (cur : text) (s : text) : list text :=
  match s with
  | [] => close_run cur
  | c :: s' =>
      if p c then runs_from p (cur ++ [c]) s'
      else close_run cur ++ runs_from p [] s'
  end.

Definition runs (p : ascii -> bool) (s : text) : list text := runs_from p [] s.

(** The alphabetic runs of length at least 4. *)
Definition alphabetic_runs (s : text) : list text :=
  filter (fun w => (4 <=? List.length w)%nat) (runs is_letter s).

(** Tags as the sentence of the specification reads: alphabetic runs of
    length at least 4, lowercased, stop words removed, the first five. *)
Definition tags_of_alphabetic_runs (title : text) : list text :=
  firstn 5
    (filter (fun w => negb (is_stop_word w)) (map lower (alphabetic_runs title))).

(** The words of [s] (maximal runs of word characters: letters, digits,
    underscore) that are made of the letters a-z and A-Z only and have at
    least 4 of them. *)
Definition alphabetic_words (s : text) : list text :=
  filter (fun w => forallb is_letter w && (4 <=? List.length w)%nat)
         (runs is_word s).

Definition tags_of_alphabetic_words (title : text) : list text :=
  firstn 5
    (filter (fun w => negb (is_stop_word w)) (alphabetic_words (lower title))).

(** ** Substitution ([re.sub] with an empty replacement) *)

(** [re.sub(pattern, "", s)]: the scan of [findall_from], keeping the
    characters outside the matches instead of the matches. *)
Fixpoint remove_from (m : option ascii -> text -> option text)
    (prev : option ascii) (skip : nat) (s : text) : text :=
  match s with
  | [] => []
  | c :: s' =>
      match skip with
      | S n => remove_from m (Some c) n s'
      | O =>
          match m prev s with
          | Some w => remove_from m (Some c) (List.length w - 1) s'
          | None => c :: remove_from m (Some c) 0 s'
          end
      end
  end.

Definition remove_all (m : option ascii -> text -> option text) (s : text) :=
  remove_from m None 0 s.

(** The pattern [<!\[CDATA\[|\]\]>]: either marker, literally. *)
Definition match_cdata (s : text) : option text :=
  if starts_with (txt "<![CDATA[") s then Some (txt "<![CDATA[")
  else if starts_with (txt "]]>") s then Some (txt "]]>")
  else None.

(** The pattern [<[^>]+>]: an opening bracket, one or more characters other
    than the closing bracket (as many as there are), and the closing bracket.
    Giving characters back cannot help: each one given back is not [>]. *)
Definition match_markup (s : text) : option text :=
  match s with
  | lt :: rest =>
      if Ascii.eqb lt "<" then
        let body := take_while (fun c => negb (Ascii.eqb c ">")) rest in
        match body, skipn (List.length body) rest with
        | _ :: _, gt :: _ => Some (lt :: body ++ [gt])
        | _, _ => None
        end
      else None
  | [] => None
  end.

(** The three steps applied to a description: CDATA markers removed, then
    tag-like substrings removed, then surrounding whitespace stripped. *)
Definition sanitize (d : text) : text :=
  let description := remove_all (fun _ => match_cdata) d in
  let description := remove_all (fun _ => match_markup) description in
  strip description.

(** ** Feed documents ([xml.etree.ElementTree]) *)

(** An element: its tag, its text (the character data before the first child;
    [None] when there is none) and its children in document order. *)
Inductive Element : Type :=
| Elem (tag : string) (etext : option text) (children : list Element).

Definition elem_tag (e : Element) : string :=
  match e with Elem tag _ _ => tag end.

Definition elem_text (e : Element) : option text :=
  match e with Elem _ etext _ => etext end.

Definition elem_children (e : Element) : list Element :=
  match e with Elem _ _ children => children end.

(** [e.find(tag)]: the first child of [e] with that tag. *)
Definition find (tag : string) (e : Element) : option Element :=
  List.find (fun c => String.eqb (elem_tag c) tag) (elem_children e).

(** The proper descendants of [e], in document order. *)
Fixpoint descendants (e : Element) : list Element :=
  match e with
  | Elem _ _ children => flat_map (fun c => c :: descendants c) children
  end.

(** [e.findall(".//" + tag)] *)
Definition findall_descendants (tag : string) (e : Element) : list Element :=
  filter (fun c => String.eqb (elem_tag c) tag) (descendants e).

(** ** Article extractor *)

(** The dict returned by [parse_rss_item], a field per key. *)
Record Article : Type := {
  title : text;
  content : text;
  summary : text;
  category_slug : string;
  severity : string;
  tags : list text;
  source_url : text;
  source_name : text;
  cves : list text;
  vendors : list text;
  skip_enrichment : bool
}.

(** The text of an element when it is present and truthy (neither [None] nor
    the empty string): the test [elem is not None and elem.text]. *)
Definition truthy_text (e : option Element) : option text :=
  match e with
  | Some el =>
      match elem_text el with
      | Some (c :: s) => Some (c :: s)
      | _ => None
      end
  | None => None
  end.

Definition parse_rss_item (item : Element) (source : text)
    (namespaces : list (string * string)) : option Article :=
  let title_elem := find "title" item in
  let link_elem := find "link" item in
  let desc_elem := find "description" item in
  let pub_date_elem := find "pubDate" item in
  match title_elem with
  | None => None
  | Some title_el =>
      match elem_text title_el with
      | None => None
      | Some title_text =>
          let title := strip title_text in
          let link :=
            match truthy_text link_elem with
            | Some l => strip l
            | None => []
            end in
          let description :=
            match truthy_text desc_elem with
            | Some d => sanitize d
            | None => []
            end in
          let pub_date :=
            match truthy_text pub_date_elem with
            | Some p => strip p
            | None => []
            end in
          let category := categorize_article title description in
          let severity := determine_severity title description in
          let cves := extract_cves (title ++ txt " " ++ description) in
          let tags := generate_tags title in
          Some {| title := firstn 500 title;
                  content := firstn 10000 description;
                  summary := firstn 300 description;
                  category_slug := category;
                  severity := severity;
                  tags := tags;
                  source_url := link;
                  source_name := source;
                  cves := cves;
                  vendors := [];
                  skip_enrichment := false |}
      end
  end.

(** *** The title of an item, as the specification words it *)

(** The title of an item after parse: the text of its [title] child.  It is
    [None] when the title is absent (there is no such child) and when it is
    empty (the child has no text: for an empty element the parser leaves
    [text] at [None]). *)
Definition title_text (item : Element) : option text :=
  match find "title" item with
  | Some el => elem_text el
  | None => None
  end.

(** ** Webhook publisher *)

Definition bytes := list Byte.byte.

(** The values the payload is built from. *)
Inductive json : Type :=
| JString (s : text)
| JBool (b : bool)
| JArray (items : list json)
| JObject (members : list (string * json)).

(** An outgoing request: [urllib.request.Request(url, data, headers, method)]. *)
Record Request : Type := {
  full_url : text;
  data : bytes;
  headers : list (string * text);
  method : string
}.

(** The body of a reply, as far as the script looks at it: whether
    [json.loads(response.read().decode())] yields an object, and then its
    [status] member if it has one. *)
Inductive reply_body : Type :=
| NotJsonObject
| JsonObject (status : option text).

(** What the [try] block of [post_to_webhook] meets.  [urlopen] raises
    [URLError] for a failed connection; anything else that is raised in the
    block (by the socket while reading, by [decode], [json.loads] or
    [result.get]) is of another class.  [Replies] is the reply the opener
    ends with, redirects followed, with its status and body. *)
Inductive exchange : Type :=
| RaisesURLError
| RaisesOther
| Replies (http_status : nat) (body : reply_body).

(** What the [try] block of [fetch_rss_feed] meets. *)
Inductive fetched : Type :=
| FetchCaught               (* [URLError] or [ET.ParseError] *)
| FetchRaisesOther
| Fetched (root : Element).

(** The result of a call: a value, or an exception that leaves the function. *)
Inductive outcome (A : Type) : Type :=
| Returned (a : A)
| Raised.

Arguments Returned {A} a.
Arguments Raised {A}.

(** What the script takes from outside: the library functions that are not
    modelled here, the clock and the network.  [send n] answers the [n]-th
    POST of a run and [utcnow k] is the [k]-th reading of the clock, both
    counted from zero. *)
Record Env : Type := {
  json_dumps : json -> text;
  encode : text -> bytes;
  hmac_sha256_hexdigest : bytes -> bytes -> text;
  utcnow : nat -> text;
  get : text -> fetched;
  send : nat -> Request -> exchange
}.

Definition WEBHOOK_URL : text := txt "http://localhost:8080/v1/webhooks/n8n".
Definition WEBHOOK_SECRET : text := txt "dev_webhook_secret_local".

Definition create_hmac_signature (env : Env) (payload : bytes) (secret : text)
    : text :=
  txt "sha256=" ++ hmac_sha256_hexdigest env (encode env secret) payload.

Definition article_dict (a : Article) : json :=
  JObject
    [ ("title", JString (title a));
      ("content", JString (content a));
      ("summary", JString (summary a));
      ("category_slug", JString (txt (category_slug a)));
      ("severity", JString (txt (severity a)));
      ("tags", JArray (map JString (tags a)));
      ("source_url", JString (source_url a));
      ("source_name", JString (source_name a));
      ("cves", JArray (map JString (cves a)));
      ("vendors", JArray (map JString (vendors a)));
      ("skip_enrichment", JBool (skip_enrichment a)) ].

Definition webhook_payload (execution_id timestamp : text) (a : Article)
    : json :=
  JObject
    [ ("event_type", JString (txt "article.created"));
      ("data", article_dict a);
      ("metadata",
        JObject
          [ ("workflow_id", JString (txt "rss-fetcher"));
            ("execution_id", JString execution_id);
            ("timestamp", JString timestamp) ]) ].

(** The request built by [post_to_webhook] before the [try] block. *)
Definition webhook_request (env : Env) (execution_id timestamp : text)
    (article_data : Article) : Request :=
  let payload := webhook_payload execution_id timestamp article_data in
  let payload_bytes := encode env (json_dumps env payload) in
  let signature := create_hmac_signature env payload_bytes WEBHOOK_SECRET in
  {| full_url := WEBHOOK_URL;
     data := payload_bytes;
     headers := [ ("Content-Type", txt "application/json");
                  ("X-N8N-Signature", signature) ];
     method := "POST" |}.

(** The statuses with which [urlopen] returns the reply: 200 to 299.  For
    any other status the opener raises [HTTPError], a subclass of
    [URLError]. *)
Definition accepted (http_status : nat) : bool :=
  (200 <=? http_status)%nat && (http_status <? 300)%nat.

(** [post_to_webhook], the answer of the network to its request given by
    [reply].  [return True] is the last statement of the [with] block, after
    the body has been parsed and [result.get] called; the only handler is
    [except URLError], which also receives the [HTTPError] of a reply whose
    status is not accepted. *)
Definition post_to_webhook (env : Env) (execution_id timestamp : text)
    (reply : Request -> exchange) (article_data : Article) : outcome bool :=
  let req := webhook_request env execution_id timestamp article_data in
  match reply req with
  | Replies http_status body =>
      if accepted http_status then
        match body with
        | JsonObject _ => Returned true
        | NotJsonObject => Raised
        end
      else Returned false
  | RaisesURLError => Returned false
  | RaisesOther => Raised
  end.

(** The value of a header of a request, by its exact name. *)
Definition header (name : string) (r : Request) : option text :=
  match List.find (fun h => String.eqb (fst h) name) (headers r) with
  | Some h => Some (snd h)
  | None => None
  end.

(** ** Feed fetcher *)

Definition fetch_rss_feed (env : Env) (url : text) : outcome (option Element) :=
  match get env url with
  | Fetched root => Returned (Some root)
  | FetchCaught => Returned None
  | FetchRaisesOther => Raised
  end.

(** ** Orchestrator *)

Record FeedInfo : Type := { url : text; name : text }.

Definition RSS_FEEDS : list FeedInfo :=
  [ {| url := txt "https://feeds.feedburner.com/TheHackersNews";
       name := txt "The Hacker News" |};
    {| url := txt "https://www.bleepingcomputer.com/feed/";
       name := txt "BleepingComputer" |} ].

(** The two counters of [main], with a trace of what the run did: the items
    handed to [parse_rss_item] and the requests handed to [urlopen], each in
    order. *)
Record RunState : Type := {
  total_articles : nat;
  success_count : nat;
  handled : list Element;
  requests : list Request
}.

Definition initial : RunState :=
  {| total_articles := 0; success_count := 0; handled := []; requests := [] |}.

(** Control after a statement: on to the next one, or an exception on its
    way out of [main]. *)
Inductive flow : Type :=
| Normal (st : RunState)
| Abort (st : RunState).

Definition state_of (f : flow) : RunState :=
  match f with Normal st => st | Abort st => st end.

Definition completes (f : flow) : bool :=
  match f with Normal _ => true | Abort _ => false end.

(** A [for] loop whose body may raise. *)
Fixpoint for_each {A : Type} (body : A -> RunState -> flow) (l : list A)
    (st : RunState) : flow :=
  match l with
  | [] => Normal st
  | x :: l' =>
      match body x st with
      | Normal st' => for_each body l' st'
      | Abort st' => Abort st'
      end
  end.

(** The body of the inner loop of [main], lines 205-209. *)
Definition process_item (env : Env) (source : text) (item : Element)
    (st : RunState) : flow :=
  let st :=
    {| total_articles := total_articles st;
       success_count := success_count st;
       handled := handled st ++ [item];
       requests := requests st |} in
  match parse_rss_item item source [] with
  | None => Normal st
  | Some article_data =>
      let n := List.length (requests st) in
      let execution_id := utcnow env (2 * n) in
      let timestamp := utcnow env (2 * n + 1) in
      let req := webhook_request env execution_id timestamp article_data in
      let st :=
        {| total_articles := total_articles st + 1;
           success_count := success_count st;
           handled := handled st;
           requests := requests st ++ [req] |} in
      match post_to_webhook env execution_id timestamp (send env n)
              article_data with
      | Returned true =>
          Normal {| total_articles := total_articles st;
                    success_count := success_count st + 1;
                    handled := handled st;
                    requests := requests st |}
      | Returned false => Normal st
      | Raised => Abort st
      end
  end.

(** Lines 197-199: the items of a document. *)
Definition discover_items (root : Element) : list Element :=
  let items := findall_descendants "item" root in
  match items with
  | [] => findall_descendants "{http://www.w3.org/2005/Atom}entry" root
  | _ :: _ => items
  end.

(** The body of the outer loop of [main]. *)
Definition process_feed (env : Env) (feed_info : FeedInfo) (st : RunState)
    : flow :=
  match fetch_rss_feed env (url feed_info) with
  | Raised => Abort st
  | Returned None => Normal st
  | Returned (Some root) =>
      for_each (process_item env (name feed_info))
        (firstn 10 (discover_items root)) st
  end.

(** The two loops of [main] over a list of feeds. *)
Definition run (env : Env) (feeds : list FeedInfo) : flow :=
  for_each (process_feed env) feeds initial.

(** [main] over a list of feeds: the value it returns. *)
Definition main_on (env : Env) (feeds : list FeedInfo) : outcome nat :=
  match run env feeds with
  | Normal st => Returned (if (0 <? success_count st)%nat then 0 else 1)
  | Abort _ => Raised
  end.

Definition main (env : Env) : outcome nat := main_on env RSS_FEEDS.

(** [sys.exit(main())]: the status [main] returns; the interpreter ends with
    status 1 when an exception reaches the top. *)
Definition exit_status (r : outcome nat) : nat :=
  match r with
  | Returned status => status
  | Raised => 1
  end.

(** *** The run, as the specification words it *)

(** [parse_rss_item] yields an Article for [item]. *)
Definition yields_article (source : text) (item : Element) : bool :=
  match parse_rss_item item source [] with
  | Some _ => true
  | None => false
  end.

(** The number of items of [items] that yield an Article. *)
Definition articles_in (source : text) (items : list Element) : nat :=
  List.length (filter (yields_article source) items).

(** The states of the counters after each item of a run: the initial state,
    and the state after one more item has been processed. *)
Inductive reachable (env : Env) : RunState -> Prop :=
| reach_initial : reachable env initial
| reach_item : forall source item st,
    reachable env st ->
    reachable env (state_of (process_item env source item st)).

(** A request carries the JSON content type and, under [X-N8N-Signature],
    the signature of its own body keyed with the shared secret. *)
Definition signed (env : Env) (r : Request) : Prop :=
  header "Content-Type" r = Some (txt "application/json") /\
  header "X-N8N-Signature" r
  = Some (txt "sha256="
          ++ hmac_sha256_hexdigest env (encode env WEBHOOK_SECRET) (data r)).

(** *** An environment for the examples

    A feed of twelve items behind the first configured URL, no document
    behind any other; a webhook that answers every POST with a JSON object.
    The three library functions are stand-ins. *)

Definition numbered_item (n : nat) : Element :=
  Elem "item" None
    [ Elem "title" (Some (txt "Patch " ++ List.repeat "I"%char n)) [];
      Elem "description" (Some (txt "<p>Details</p>")) [] ].

Definition twelve_items : Element :=
  Elem "rss" None [Elem "channel" None (map numbered_item (seq 1 12))].

Definition hacker_news : FeedInfo :=
  {| url := txt "https://feeds.feedburner.com/TheHackersNews";
     name := txt "The Hacker News" |}.

Definition sample_env : Env :=
  {| json_dumps := fun _ => txt "{}";
     encode := map byte_of_ascii;
     hmac_sha256_hexdigest := fun _ _ => txt "00";
     utcnow := fun _ => txt "2024-01-01T00:00:00";
     get := fun u =>
       if text_eqb u (url hacker_news) then Fetched twelve_items
       else FetchCaught;
     send := fun _ _ => Replies 200 (JsonObject (Some (txt "ok"))) |}.

(** The same environment with the webhook unreachable: every POST raises
    [URLError]. *)
Definition unreachable_env : Env :=
  {| json_dumps := json_dumps sample_env;
     encode := encode sample_env;
     hmac_sha256_hexdigest := hmac_sha256_hexdigest sample_env;
     utcnow := utcnow sample_env;
     get := get sample_env;
     send := fun _ _ => RaisesURLError |}.

(** The same environment with a webhook that answers the first POST with a
    JSON object and every later one with a body that is not JSON. *)
Definition faltering_env : Env :=
  {| json_dumps := json_dumps sample_env;
     encode := encode sample_env;
     hmac_sha256_hexdigest := hmac_sha256_hexdigest sample_env;
     utcnow := utcnow sample_env;
     get := get sample_env;
     send := fun n _ =>
       match n with
       | O => Replies 200 (JsonObject (Some (txt "ok")))
       | S _ => Replies 200 NotJsonObject
       end |}.

Definition sample_article : Article :=
  {| title := txt "Patch I";
     content := txt "Details";
     summary := txt "Details";
     category_slug := "vulnerabilities";
     severity := "medium";
     tags := [txt "patch"];
     source_url := [];
     source_name := txt "The Hacker News";
     cves := [];
     vendors := [];
     skip_enrichment := false |}.

(** [rest] does not begin with a word character. *)
Definition ends_word (rest : text) : Prop :=
  match rest with
  | c :: _ => is_word c = false
  | [] => True
  end.

(** The test a word passes to be a tag candidate. *)
Definition keeps (w : text) : bool :=
  forallb is_letter w && (4 <=? List.length w)%nat.

(** The environment raises nothing but what the script handles: no fetch
    ends in an exception other than [URLError] and [ET.ParseError], and every
    POST either raises [URLError] or is answered with a JSON object. *)
Definition handled_errors_only (env : Env) : Prop :=
  (forall u, get env u <> FetchRaisesOther) /\
  (forall n r, send env n r = RaisesURLError \/
               exists status body, send env n r = Replies status (JsonObject body)).

(** An item with a title and a description of more than 10000 characters. *)
Definition long_description : text :=
  txt "<![CDATA[<p>Patch for cve-2023-1234: "
  ++ List.repeat "a"%char 10000 ++ txt "</p>]]>".

Definition long_item : Element :=
  Elem "item" None
    [ Elem "title" (Some (txt " Critical RCE vulnerability in product X ")) [];
      Elem "link" (Some (txt "https://example.org/a")) [];
      Elem "description" (Some long_description) [] ].

(** Case analysis over the 256 characters. *)
Ltac each_char c := destruct c as [[] [] [] [] [] [] [] []].

(** *** Further notions the properties are stated with *)

(** [w] is a tag-like string: an opening bracket, one or more characters
    other than the closing bracket, and the closing bracket. *)
Definition markup_shaped (w : text) : Prop :=
  exists body,
    body <> [] /\ Forall (fun c => c <> ">"%char) body /\
    w = "<"%char :: body ++ [">"%char].

(** [s] neither begins nor ends with whitespace. *)
Definition trimmed (s : text) : Prop :=
  (forall c s', s = c :: s' -> is_space c = false) /\
  (forall c s', s = s' ++ [c] -> is_space c = false).

(** Every opening bracket of [r] is directly followed by a closing bracket
    or followed by none. *)
Definition brackets_spent (r : text) : Prop :=
  forall pre post, r = pre ++ "<"%char :: post ->
    (exists post', post = ">"%char :: post') \/ ~ In ">"%char post.

(** The labels the two classifiers can return. *)
Definition category_slugs : list string :=
  ["vulnerabilities"; "ransomware"; "data-breaches"; "malware"; "phishing";
   "threat-actors"; "compliance"; "industry-news"].

Definition severities : list string := ["critical"; "high"; "low"; "medium"].

(** The description [parse_rss_item] works with: the sanitized text of the
    [description] child, empty when the child or its text is missing. *)
Definition item_description (item : Element) : text :=
  match truthy_text (find "description" item) with
  | Some d => sanitize d
  | None => []
  end.

(** [x] reads [CVE-] in capitals, four digits, a hyphen and one or more
    digits. *)
Definition canonical_cve (x : text) : Prop :=
  exists year num,
    x = txt "CVE-" ++ year ++ "-"%char :: num /\
    List.length year = 4 /\ Forall digit year /\
    num <> [] /\ Forall digit num.

(** Every child of [e] carries a namespace-qualified tag, [{uri}local], as
    the children of the entries of a parsed Atom document do. *)
Definition qualified_children (e : Element) : Prop :=
  Forall (fun c => exists rest, elem_tag c = String "{"%char rest)
         (elem_children e).

(** An Atom document of two entries, as [ET.fromstring] returns it, and an
    environment that serves it. *)
Definition atom_entry (t : string) : Element :=
  Elem "{http://www.w3.org/2005/Atom}entry" None
    [ Elem "{http://www.w3.org/2005/Atom}title" (Some (txt t)) [];
      Elem "{http://www.w3.org/2005/Atom}link" None [];
      Elem "{http://www.w3.org/2005/Atom}summary" (Some (txt "Details")) [] ].

Definition atom_feed : Element :=
  Elem "{http://www.w3.org/2005/Atom}feed" None
    [ Elem "{http://www.w3.org/2005/Atom}title" (Some (txt "Feed")) [];
      atom_entry "Patch for CVE-2024-0001";
      atom_entry "Ransomware report" ].

Definition atom_env : Env :=
  {| json_dumps := json_dumps sample_env;
     encode := encode sample_env;
     hmac_sha256_hexdigest := hmac_sha256_hexdigest sample_env;
     utcnow := utcnow sample_env;
     get := fun _ => Fetched atom_feed;
     send := send sample_env |}.

(** An environment in which every fetch fails with a handled error. *)
Definition offline_env : Env :=
  {| json_dumps := json_dumps sample_env;
     encode := encode sample_env;
     hmac_sha256_hexdigest := hmac_sha256_hexdigest sample_env;
     utcnow := utcnow sample_env;
     get := fun _ => FetchCaught;
     send := send sample_env |}.

(** An item whose title names a CVE. *)
Definition cve_item : Element :=
  Elem "item" None
    [ Elem "title" (Some (txt "Update fixes cve-2024-1234 in router")) [];
      Elem "link" (Some (txt " https://example.org/b ")) [] ].

(** The webhook answers with an accepted status (200 to 299) and a JSON
    object. *)
Definition is_delivered (x : exchange) : bool :=
  match x with
  | Replies http_status (JsonObject _) => accepted http_status
  | _ => false
  end.

(** The number of requests of [rs] answered with a JSON object, the first
    of them being the [n]-th POST of the run. *)
Fixpoint delivered_from (env : Env) (n : nat) (rs : list Request) : nat :=
  match rs with
  | [] => 0
  | r :: rs' =>
      (if is_delivered (send env n r) then 1 else 0)
      + delivered_from env (S n) rs'
  end.

(** * Properties *)

(** ** Properties of the text operations *)

Lemma starts_with_app (k t : text) :
  starts_with k t = true <-> exists post, t = k ++ post.
Proof.
  revert t; induction k as [|a k IH]; intros t; simpl.
  - split; [intros _; now exists t | reflexivity].
  - destruct t as [|b t].
    + split; [discriminate | intros [post H]; discriminate].
    + rewrite andb_true_iff, Ascii.eqb_eq, IH. split.
      * intros [-> [post ->]]. now exists post.
      * intros [post H]. injection H as -> ->. split; [reflexivity | now exists post].
Qed.

Lemma contains_occurs (k t : text) : contains k t = true <-> occurs k t.
Proof.
  unfold occurs. induction t as [|b t IH].
  - simpl. rewrite orb_false_r, starts_with_app. split.
    + intros [post H]. now exists [], post.
    + intros [pre [post H]]. destruct pre as [|x pre]; [|discriminate].
      now exists post.
  - simpl. rewrite orb_true_iff, starts_with_app, IH. split.
    + intros [[post H] | [pre [post H]]].
      * now exists [], post.
      * exists (b :: pre), post. simpl. now rewrite H.
    + intros [pre [post H]]. destruct pre as [|x pre].
      * left. now exists post.
      * right. injection H as _ H. now exists pre, post.
Qed.

Lemma contains_false_occurs (k t : text) : contains k t = false <-> ~ occurs k t.
Proof.
  rewrite <- contains_occurs. destruct (contains k t); split; intuition congruence.
Qed.

(** ** Properties of the classifier *)

Lemma keyword_loop_true (keywords : list text) (t : text) :
  keyword_loop keywords t = true <-> exists k, In k keywords /\ occurs k t.
Proof.
  induction keywords as [|kw rest IH]; simpl.
  - split; [discriminate | intros [k [[] _]]].
  - destruct (contains kw t) eqn:E.
    + split; [intros _ | reflexivity].
      exists kw. split; [now left | now apply contains_occurs].
    + rewrite IH. split.
      * intros [k [Hin Hocc]]. exists k. split; [now right | assumption].
      * intros [k [[<- | Hin] Hocc]].
        -- apply contains_false_occurs in E. contradiction.
        -- now exists k.
Qed.

Lemma keyword_loop_false (keywords : list text) (t : text) :
  keyword_loop keywords t = false <-> forall k, In k keywords -> ~ occurs k t.
Proof.
  split.
  - intros E k Hin Hocc.
    assert (keyword_loop keywords t = true) by (apply keyword_loop_true; eauto).
    congruence.
  - intros H. destruct (keyword_loop keywords t) eqn:E; [|reflexivity].
    apply keyword_loop_true in E. destruct E as [k [Hin Hocc]].
    exfalso. exact (H k Hin Hocc).
Qed.

Section FirstMatch.
Variable default : string.
Variable t : text.

Lemma no_keyword_occurs_nil : no_keyword_occurs [] t.
Proof. intros label keywords k []. Qed.

Lemma no_keyword_occurs_cons label keywords table :
  no_keyword_occurs ((label, keywords) :: table) t <->
  keyword_loop keywords t = false /\ no_keyword_occurs table t.
Proof.
  rewrite keyword_loop_false. unfold no_keyword_occurs. split.
  - intros H. split.
    + intros k Hin. apply (H label keywords k); [now left | assumption].
    + intros l' ks' k Hin. apply (H l' ks' k). now right.
  - intros [H1 H2] l' ks' k [Heq | Hin] Hk.
    + injection Heq as <- <-. now apply H1.
    + now apply (H2 l' ks' k).
Qed.

Lemma table_loop_sound (table : keyword_table) (r : string) :
  table_result default t table = r -> first_match_of table default t r.
Proof.
  unfold table_result. revert r.
  induction table as [|[label keywords] rest IH]; simpl; intros r Hr.
  - subst r. apply fm_default. exact no_keyword_occurs_nil.
  - destruct (keyword_loop keywords t) eqn:E.
    + subst r. apply keyword_loop_true in E. destruct E as [k [Hin Hocc]].
      apply (fm_hit _ _ _ [] label keywords rest k); auto.
      exact no_keyword_occurs_nil.
    + destruct (IH r Hr) as [pre K ks post k Hsplit Hin Hocc Hnone | Hnone].
      * apply (fm_hit _ _ _ ((label, keywords) :: pre) K ks post k); auto.
        -- simpl. now rewrite Hsplit.
        -- now apply no_keyword_occurs_cons.
      * apply fm_default. now apply no_keyword_occurs_cons.
Qed.

Lemma table_loop_complete (table : keyword_table) (r : string) :
  first_match_of table default t r -> table_result default t table = r.
Proof.
  unfold table_result.
  intros [pre K keywords post k Hsplit Hin Hocc Hnone | Hnone].
  - subst table. induction pre as [|[l ks] pre IH]; simpl.
    + assert (E : keyword_loop keywords t = true)
        by (apply keyword_loop_true; eauto).
      now rewrite E.
    + apply no_keyword_occurs_cons in Hnone. destruct Hnone as [E Hpre].
      rewrite E. now apply IH.
  - induction table as [|[l ks] rest IH]; simpl; [reflexivity|].
    apply no_keyword_occurs_cons in Hnone. destruct Hnone as [E Hrest].
    rewrite E. now apply IH.
Qed.
End FirstMatch.

(** C1. For every title and content, [categorize_article] classifies the
    lowercased concatenation [title + " " + content]: its result is the first
    category of [CATEGORY_KEYWORDS], in declared order, one of whose keywords
    occurs as a substring of that text, and ["industry-news"] when no keyword
    of any category occurs.  Conversely, whenever a keyword of category [K]
    occurs and no keyword of an earlier category does, the result is [K]. *)
Theorem categorize_article_first_match (title content : text) (r : string) :
  categorize_article title content = r <->
  first_match_of CATEGORY_KEYWORDS "industry-news"
    (lower (title ++ txt " " ++ content)) r.
Proof.
  unfold categorize_article. cbv zeta.
  change (table_result "industry-news" (lower (title ++ txt " " ++ content))
            CATEGORY_KEYWORDS = r <->
          first_match_of CATEGORY_KEYWORDS "industry-news"
            (lower (title ++ txt " " ++ content)) r).
  split.
  - apply table_loop_sound.
  - apply table_loop_complete.
Qed.

(** [determine_severity] is the same first-match search over
    [SEVERITY_KEYWORDS], with ["medium"] when no keyword occurs. *)
Theorem determine_severity_first_match (title content : text) (r : string) :
  determine_severity title content = r <->
  first_match_of SEVERITY_KEYWORDS "medium"
    (lower (title ++ txt " " ++ content)) r.
Proof.
  unfold determine_severity. cbv zeta.
  change (table_result "medium" (lower (title ++ txt " " ++ content))
            SEVERITY_KEYWORDS = r <->
          first_match_of SEVERITY_KEYWORDS "medium"
            (lower (title ++ txt " " ++ content)) r).
  split; [apply table_loop_sound | apply table_loop_complete].
Qed.

Example categorize_example :
  categorize_article (txt "Critical RCE vulnerability in product X") [] = "vulnerabilities"
  /\ determine_severity (txt "Critical RCE vulnerability in product X") [] = "critical".
Proof. split; reflexivity. Qed.

Example extract_cves_example :
  extract_cves (txt "Patch for CVE-2023-1234 and cve-2023-1234 released")
  = [txt "CVE-2023-1234"].
Proof. reflexivity. Qed.

Example generate_tags_example :
  generate_tags (txt "The Quick Brown Fox Jumps Over")
  = map txt ["quick"; "brown"; "jumps"; "over"].
Proof. reflexivity. Qed.

Example generate_tags_example2 :
  generate_tags (txt "log4shell rocks the_world with over")
  = map txt ["rocks"; "over"].
Proof. reflexivity. Qed.

Example sanitize_example :
  sanitize (txt "  <![CDATA[<p>Fix for <b>CVE-2024-1</b> a<>b<c<d>e>f<g</p>]]> ")
  = txt "Fix for CVE-2024-1 a<>be>f".
Proof. reflexivity. Qed.

(** ** Properties of the search *)

Lemma take_while_Forall (p : ascii -> bool) (s : text) :
  Forall (fun c => p c = true) (take_while p s).
Proof.
  induction s as [|c s IH]; simpl; [constructor|].
  destruct (p c) eqn:E; constructor; assumption.
Qed.

Lemma take_while_split (p : ascii -> bool) (s : text) :
  exists post,
    s = take_while p s ++ post /\
    match post with c :: _ => p c = false | [] => True end.
Proof.
  induction s as [|c s [post [Hs Hpost]]]; simpl.
  - now exists [].
  - destruct (p c) eqn:E.
    + exists post. simpl. split; [now rewrite <- Hs | assumption].
    + now exists (c :: s).
Qed.

Lemma take_while_app (p : ascii -> bool) (run post : text) :
  Forall (fun c => p c = true) run ->
  match post with c :: _ => p c = false | [] => True end ->
  take_while p (run ++ post) = run.
Proof.
  intros Hrun Hpost. induction Hrun as [|c run Hc _ IH]; simpl.
  - destruct post as [|c post]; simpl; [reflexivity | now rewrite Hpost].
  - now rewrite Hc, IH.
Qed.

Lemma ctx_at_cons (prev : option ascii) (c : ascii) (pre : text) :
  ctx_at prev (c :: pre) = ctx_at (Some c) pre.
Proof. reflexivity. Qed.

(** A position strictly inside the first part of a text falls on one of its
    characters. *)
Lemma split_inside (w post0 pre post : text) :
  w ++ post0 = pre ++ post -> List.length pre < List.length w ->
  exists x rest, post = x :: rest /\ In x w.
Proof.
  revert w. induction pre as [|b pre IH]; intros w Heq Hlen.
  - destruct w as [|x w]; [simpl in Hlen; lia|].
    simpl in Heq. exists x, (w ++ post0). split; [now rewrite <- Heq | now left].
  - destruct w as [|a w]; [simpl in Hlen; lia|].
    simpl in Heq, Hlen. injection Heq as _ Heq.
    destruct (IH w Heq) as [x [rest [Hpost Hin]]]; [lia|].
    exists x, rest. split; [assumption | now right].
Qed.

Section Findall.
Variable m : option ascii -> text -> option text.

(** A match is a non-empty prefix of the text it is found in. *)
Hypothesis m_prefix : forall p s w,
  m p s = Some w -> w <> [] /\ exists post, s = w ++ post.

(** No match begins inside another one. *)
Hypothesis m_apart : forall p s w pre post,
  m p s = Some w -> s = pre ++ post ->
  0 < List.length pre < List.length w ->
  m (ctx_at p pre) post = None.

Lemma findall_from_In (s : text) : forall prev skip,
  (forall pre post, s = pre ++ post -> List.length pre < skip ->
     m (ctx_at prev pre) post = None) ->
  forall w, In w (findall_from m prev skip s) <->
            exists pre post, s = pre ++ post /\ m (ctx_at prev pre) post = Some w.
Proof.
  induction s as [|c s IH]; intros prev skip Hskip w; simpl.
  - split; [intros [] | intros [pre [post [Heq Hm]]]].
    symmetry in Heq. apply app_eq_nil in Heq. destruct Heq as [-> ->].
    simpl in Hm. destruct (m_prefix _ _ _ Hm) as [Hne [post Hp]].
    symmetry in Hp. apply app_eq_nil in Hp. tauto.
  - assert (Hshift : forall skip',
      (forall pre post, s = pre ++ post -> List.length pre < skip' ->
         m (ctx_at (Some c) pre) post = None) ->
      m prev (c :: s) <> Some w ->
      (In w (findall_from m (Some c) skip' s) <->
       exists pre post, c :: s = pre ++ post /\ m (ctx_at prev pre) post = Some w)).
    { intros skip' Hskip' Hhere. rewrite (IH (Some c) skip' Hskip' w). split.
      - intros [pre [post [Heq Hm]]]. exists (c :: pre), post.
        split; [simpl; now rewrite Heq | exact Hm].
      - intros [pre [post [Heq Hm]]]. destruct pre as [|b pre].
        + simpl in Heq, Hm. subst post. contradiction.
        + simpl in Heq. injection Heq as <- Heq. now exists pre, post. }
    destruct skip as [|n].
    + destruct (m prev (c :: s)) as [w0|] eqn:E.
      * assert (Hin : forall pre post, s = pre ++ post ->
                  List.length pre < List.length w0 - 1 ->
                  m (ctx_at (Some c) pre) post = None).
        { intros pre post Heq Hlen.
          apply (m_apart prev (c :: s) w0 (c :: pre) post E).
          - simpl. now rewrite Heq.
          - simpl. lia. }
        simpl. destruct (text_eq_dec w0 w) as [->|Hne].
        -- split; [intros _ | now left].
           exists [], (c :: s). split; [reflexivity | exact E].
        -- rewrite <- (Hshift _ Hin); [|congruence]. tauto.
      * apply Hshift; [|congruence].
        intros pre post _ Hlen. lia.
    + apply Hshift.
      * intros pre post Heq Hlen.
        apply (Hskip (c :: pre) post); [simpl; now rewrite Heq | simpl; lia].
      * assert (Hn : m (ctx_at prev []) (c :: s) = None)
          by (apply Hskip; [reflexivity | simpl; lia]).
        simpl in Hn. congruence.
Qed.

Lemma findall_In (s w : text) :
  In w (findall m s) <->
  exists pre post, s = pre ++ post /\ m (ctx_at None pre) post = Some w.
Proof.
  unfold findall. apply findall_from_In. intros pre post _ Hlen. lia.
Qed.
End Findall.

(** ** Properties of [extract_cves] *)

Lemma ieq_either (lit c : ascii) :
  is_upper lit = true ->
  ieq lit c = true <-> c = lit \/ c = lower_char lit.
Proof.
  intros Hlit.
  assert (E : is_upper lit = true ->
              ieq lit c = Ascii.eqb c lit || Ascii.eqb c (lower_char lit)).
  { each_char lit; try discriminate; intros _; each_char c; reflexivity. }
  rewrite (E Hlit), orb_true_iff, !Ascii.eqb_eq. reflexivity.
Qed.

(** The characters of a match after the first are not a letter C. *)
Lemma not_ieq_C (x : ascii) :
  (ieq "V" x || ieq "E" x || Ascii.eqb x "-" || is_digit x) = true ->
  ieq "C" x = false.
Proof. each_char x; try reflexivity; discriminate. Qed.

(** [match_cve] against its pattern, read off the specification. *)
Lemma match_cve_spec (s w : text) :
  match_cve s = Some w <->
  exists post, s = w ++ post /\ cve_shaped w /\ no_digit_next post.
Proof.
  split.
  - destruct s as [|c [|v [|e [|h1 [|d1 [|d2 [|d3 [|d4 [|h2 [|d5 rest]]]]]]]]]];
      simpl; try discriminate.
    destruct (ieq "C" c) eqn:Ec; [|discriminate].
    destruct (ieq "V" v) eqn:Ev; [|discriminate].
    destruct (ieq "E" e) eqn:Ee; [|discriminate].
    destruct (Ascii.eqb h1 "-") eqn:E1; [|discriminate].
    destruct (is_digit d1) eqn:D1; [|discriminate].
    destruct (is_digit d2) eqn:D2; [|discriminate].
    destruct (is_digit d3) eqn:D3; [|discriminate].
    destruct (is_digit d4) eqn:D4; [|discriminate].
    destruct (Ascii.eqb h2 "-") eqn:E2; [|discriminate].
    destruct (is_digit d5) eqn:D5; [|discriminate].
    simpl. intros Hw. injection Hw as <-.
    apply Ascii.eqb_eq in E1, E2. subst h1 h2.
    destruct (take_while_split is_digit rest) as [post [Hrest Hpost]].
    exists post. split; [now rewrite Hrest at 1|]. split; [|exact Hpost].
    exists c, v, e, d1, d2, d3, d4, (d5 :: take_while is_digit rest).
    apply ieq_either in Ec, Ev, Ee; try reflexivity.
    repeat split; try assumption; try discriminate.
    constructor; [exact D5 | apply take_while_Forall].
  - intros [post [-> [Hshape Hpost]]].
    destruct Hshape
      as (c & v & e & d1 & d2 & d3 & d4 & ds & -> & Hc & Hv & He
          & D1 & D2 & D3 & D4 & Hne & Hds).
    destruct ds as [|d5 ds]; [contradiction|].
    inversion Hds as [|? ? D5 Hds']; subst.
    unfold digit in *. simpl.
    assert (Ec : ieq "C" c = true) by (apply ieq_either; [reflexivity | exact Hc]).
    assert (Ev : ieq "V" v = true) by (apply ieq_either; [reflexivity | exact Hv]).
    assert (Ee : ieq "E" e = true) by (apply ieq_either; [reflexivity | exact He]).
    rewrite Ec, Ev, Ee, D1, D2, D3, D4, D5. simpl.
    now rewrite (take_while_app is_digit ds post Hds' Hpost).
Qed.

Lemma match_cve_prefix (p : option ascii) (s w : text) :
  match_cve s = Some w -> w <> [] /\ exists post, s = w ++ post.
Proof.
  intros H. apply match_cve_spec in H. destruct H as [post [Hs [Hshape _]]].
  split; [|now exists post].
  destruct Hshape as (c & v & e & d1 & d2 & d3 & d4 & ds & -> & _).
  discriminate.
Qed.

Lemma match_cve_apart (p : option ascii) (s w pre post : text) :
  match_cve s = Some w -> s = pre ++ post ->
  0 < List.length pre < List.length w ->
  match_cve post = None.
Proof.
  intros H Hs [Hpos Hlen]. apply match_cve_spec in H.
  destruct H as [post0 [Hw [Hshape _]]]. rewrite Hw in Hs.
  destruct pre as [|b pre]; [simpl in Hpos; lia|].
  destruct Hshape
    as (c & v & e & d1 & d2 & d3 & d4 & ds & -> & _ & Hv & He
        & D1 & D2 & D3 & D4 & _ & Hds).
  simpl in Hs, Hlen. injection Hs as _ Hs.
  destruct (split_inside ([v; e; "-"; d1; d2; d3; d4; "-"]%char ++ ds)
              post0 pre post Hs) as [x [rest [-> Hin]]];
    [simpl; lia|].
  assert (Hx : ieq "C" x = false).
  { apply not_ieq_C. unfold digit in *. rewrite Forall_forall in Hds.
    simpl in Hin.
    destruct Hin as [<-|[<-|[<-|[<-|[<-|[<-|[<-|[<-|Hin]]]]]]]];
      rewrite ?D1, ?D2, ?D3, ?D4, ?(Hds _ Hin), ?orb_true_r; try reflexivity.
    - assert (E : ieq "V" v = true) by (apply ieq_either; [reflexivity | exact Hv]).
      now rewrite E.
    - assert (E : ieq "E" e = true) by (apply ieq_either; [reflexivity | exact He]).
      now rewrite E, orb_true_r. }
  destruct rest as [|v' [|e' [|h1 [|k1 [|k2 [|k3 [|k4 [|h2 [|k5 rest]]]]]]]]];
    simpl; try reflexivity.
  now rewrite Hx.
Qed.

Lemma findall_cve_In (t w : text) :
  In w (findall (fun _ => match_cve) t) <-> cve_occurrence t w.
Proof.
  rewrite findall_In.
  - unfold cve_occurrence. split.
    + intros [pre [post [Ht Hm]]]. apply match_cve_spec in Hm.
      destruct Hm as [post' [-> [Hshape Hnext]]]. now exists pre, post'.
    + intros [pre [post [Ht [Hshape Hnext]]]]. exists pre, (w ++ post).
      split; [exact Ht|]. apply match_cve_spec. now exists post.
  - intros p s w0. apply (match_cve_prefix p).
  - intros p s w0 pre post. apply (match_cve_apart p).
Qed.

(** C5. For every input, [extract_cves] returns exactly the identifiers that
    occur in it in the form CVE-, four digits, a hyphen, one or more digits
    (letters in either case, each occurrence with all its digits), each in
    upper case and none twice; the sentence of the specification's example
    yields the single identifier CVE-2023-1234. *)
Theorem extract_cves_exact (t : text) :
  NoDup (extract_cves t) /\
  (forall x, In x (extract_cves t) <->
             exists w, cve_occurrence t w /\ x = upper w) /\
  extract_cves (txt "Patch for CVE-2023-1234 and cve-2023-1234 released")
  = [txt "CVE-2023-1234"].
Proof.
  unfold extract_cves. split; [apply NoDup_nodup|]. split; [|reflexivity].
  intros x. rewrite nodup_In, in_map_iff. split.
  - intros [w [Hx Hin]]. exists w. split; [now apply findall_cve_In | now symmetry].
  - intros [w [Hocc Hx]]. exists w. split; [now symmetry | now apply findall_cve_In].
Qed.

(** ** Properties of [generate_tags] *)

Lemma is_letter_word (c : ascii) : is_letter c = true -> is_word c = true.
Proof. unfold is_word. now intros ->. Qed.

Lemma backtrack_S (s : text) (n : nat) :
  backtrack (S n) s =
  if (4 <=? S n)%nat && word_boundary (nth_error s n) (nth_error s (S n))
  then Some (firstn (S n) s)
  else backtrack n s.
Proof. reflexivity. Qed.

Lemma backtrack_none (s : text) (n : nat) :
  (forall i, 3 <= i < n ->
     word_boundary (nth_error s i) (nth_error s (S i)) = false) ->
  backtrack n s = None.
Proof.
  induction n as [|n IH]; intros H; [reflexivity|].
  rewrite backtrack_S.
  destruct (Nat.leb_spec 4 (S n)) as [Hle|Hlt].
  - rewrite (H n) by lia. apply IH. intros i Hi. apply H. lia.
  - apply IH. intros i Hi. lia.
Qed.

Lemma nth_error_word (run rest : text) (i : nat) :
  Forall (fun c => is_word c = true) run -> i < List.length run ->
  is_word_opt (nth_error (run ++ rest) i) = true.
Proof.
  intros Hrun Hi. rewrite nth_error_app1 by assumption.
  destruct (nth_error run i) as [c|] eqn:E.
  - simpl. rewrite Forall_forall in Hrun. apply Hrun. eapply nth_error_In, E.
  - apply nth_error_None in E. lia.
Qed.

Lemma nth_error_after (run rest : text) :
  ends_word rest -> is_word_opt (nth_error (run ++ rest) (List.length run)) = false.
Proof.
  intros H. rewrite nth_error_app2 by lia. rewrite Nat.sub_diag.
  destruct rest as [|c rest]; [reflexivity | exact H].
Qed.

(** The pattern at the start of a word: it matches the whole word, when the
    word is alphabetic and long enough, and nothing otherwise. *)
Lemma match_tag_word (prev : option ascii) (run rest : text) :
  is_word_opt prev = false -> run <> [] ->
  Forall (fun c => is_word c = true) run -> ends_word rest ->
  match_tag prev (run ++ rest) = if keeps run then Some run else None.
Proof.
  intros Hprev Hne Hrun Hrest. unfold match_tag, word_boundary.
  rewrite Hprev, (nth_error_word run rest 0 Hrun)
    by (destruct run; [contradiction | simpl; lia]).
  cbn [xorb]. unfold keeps.
  destruct (forallb is_letter run) eqn:Hall; cbn [andb].
  - rewrite forallb_forall in Hall.
    assert (Htw : take_while is_letter (run ++ rest) = run).
    { apply take_while_app; [now apply Forall_forall|].
      destruct rest as [|x rest]; [exact I|]. simpl in Hrest.
      destruct (is_letter x) eqn:Ex; [|reflexivity].
      apply is_letter_word in Ex. congruence. }
    rewrite Htw. destruct (Nat.leb_spec 4 (List.length run)) as [Hle|Hlt].
    + assert (Hfirst : firstn (List.length run) (run ++ rest) = run)
        by now rewrite firstn_app, Nat.sub_diag, firstn_all, app_nil_r.
      pose proof (nth_error_after run rest Hrest) as Hafter.
      pose proof (fun i => nth_error_word run rest i Hrun) as Hbefore.
      destruct (List.length run) as [|n]; [lia|].
      rewrite backtrack_S. unfold word_boundary.
      rewrite Hbefore, Hafter, Hfirst by lia.
      destruct (Nat.leb_spec 4 (S n)) as [_|?]; [reflexivity | lia].
    + apply backtrack_none. intros i Hi. lia.
  - apply backtrack_none. intros i [_ Hi]. unfold word_boundary.
    assert (Hlen : List.length (take_while is_letter (run ++ rest))
                   < List.length run).
    { clear - Hall. induction run as [|c run IH]; [discriminate|].
      simpl in *. destruct (is_letter c); simpl in *; [|lia].
      apply IH in Hall. lia. }
    rewrite !(nth_error_word run rest) by (assumption || lia). reflexivity.
Qed.

Lemma scan_nonword (prev : option ascii) (c : ascii) (s : text) :
  is_word c = false ->
  findall_from match_tag prev 0 (c :: s) = findall_from match_tag (Some c) 0 s.
Proof.
  intros Hc. simpl. unfold match_tag at 1.
  assert (El : is_letter c = false).
  { destruct (is_letter c) eqn:E; [|reflexivity].
    apply is_letter_word in E. congruence. }
  simpl. rewrite El. simpl. now destruct (word_boundary prev (Some c)).
Qed.

Lemma scan_inside (run rest : text) : forall prev,
  is_word_opt prev = true -> Forall (fun c => is_word c = true) run ->
  findall_from match_tag prev 0 (run ++ rest)
  = findall_from match_tag (ctx_at prev run) 0 rest.
Proof.
  induction run as [|c run IH]; intros prev Hprev Hrun; [reflexivity|].
  inversion Hrun as [|? ? Hc Hrun']; subst.
  simpl. unfold match_tag at 1, word_boundary. simpl. rewrite Hprev, Hc. simpl.
  now apply IH.
Qed.

Lemma scan_skip (run rest : text) : forall prev,
  findall_from match_tag prev (List.length run) (run ++ rest)
  = findall_from match_tag (ctx_at prev run) 0 rest.
Proof.
  induction run as [|c run IH]; intros prev; simpl.
  - now destruct rest.
  - apply IH.
Qed.

Lemma scan_word (prev : option ascii) (run rest : text) :
  is_word_opt prev = false -> run <> [] ->
  Forall (fun c => is_word c = true) run -> ends_word rest ->
  findall_from match_tag prev 0 (run ++ rest)
  = filter keeps [run] ++ findall_from match_tag (ctx_at prev run) 0 rest.
Proof.
  intros Hprev Hne Hrun Hrest.
  pose proof (match_tag_word prev run rest Hprev Hne Hrun Hrest) as Hm.
  destruct run as [|c run]; [contradiction|].
  inversion Hrun as [|? ? Hc Hrun']; subst.
  simpl. simpl in Hm. rewrite Hm. destruct (keeps (c :: run)); simpl.
  - rewrite Nat.sub_0_r. f_equal. apply scan_skip.
  - apply scan_inside; assumption.
Qed.

Lemma runs_from_app (p : ascii -> bool) (run rest : text) : forall cur,
  Forall (fun c => p c = true) run ->
  runs_from p cur (run ++ rest) = runs_from p (cur ++ run) rest.
Proof.
  induction run as [|c run IH]; intros cur Hrun; simpl.
  - now rewrite app_nil_r.
  - inversion Hrun as [|? ? Hc Hrun']; subst. rewrite Hc, IH by assumption.
    now rewrite <- app_assoc.
Qed.

(** The scan of the tag pattern finds the alphabetic words. *)
Lemma findall_tags_words (n : nat) : forall (s : text) (prev : option ascii),
  List.length s <= n -> is_word_opt prev = false ->
  findall_from match_tag prev 0 s = alphabetic_words s.
Proof.
  unfold alphabetic_words, runs. fold keeps.
  induction n as [|n IH]; intros s prev Hlen Hprev.
  - destruct s; [reflexivity | simpl in Hlen; lia].
  - destruct s as [|c s]; [reflexivity|].
    simpl in Hlen. destruct (is_word c) eqn:Hc.
    + destruct (take_while_split is_word (c :: s)) as [rest [Hs Hrest]].
      pose proof (take_while_Forall is_word (c :: s)) as Hrun.
      remember (take_while is_word (c :: s)) as run eqn:Erun.
      assert (Hne : run <> []) by (subst run; simpl; rewrite Hc; discriminate).
      assert (Hl : List.length (c :: s) = List.length run + List.length rest)
        by (rewrite Hs at 1; apply length_app).
      simpl in Hl. rewrite Hs.
      rewrite (scan_word prev run rest Hprev Hne Hrun Hrest).
      rewrite (runs_from_app is_word run rest [] Hrun). simpl app.
      destruct rest as [|x rest].
      * simpl. destruct run; [contradiction|]. simpl.
        now rewrite app_nil_r.
      * simpl in Hrest. rewrite (scan_nonword _ x rest Hrest).
        rewrite (IH rest (Some x)); [|simpl in Hl; destruct run; [contradiction | simpl in Hl; lia] | exact Hrest].
        simpl. rewrite Hrest. rewrite filter_app.
        destruct run; [contradiction | reflexivity].
    + rewrite (scan_nonword prev c s Hc). simpl. rewrite Hc. simpl.
      apply IH; [lia | exact Hc].
Qed.

Lemma generate_tags_words (title : text) :
  generate_tags title = tags_of_alphabetic_words title.
Proof.
  unfold generate_tags, tags_of_alphabetic_words, findall.
  now rewrite (findall_tags_words (List.length (lower title))).
Qed.

Lemma runs_from_chars (p : ascii -> bool) (s : text) : forall cur w c,
  In w (runs_from p cur s) -> In c w -> In c cur \/ In c s.
Proof.
  induction s as [|x s IH]; intros cur w c Hw Hc; simpl in Hw.
  - destruct cur; simpl in Hw; [contradiction|].
    destruct Hw as [<-|[]]. now left.
  - destruct (p x).
    + destruct (IH _ _ _ Hw Hc) as [H|H]; [|right; now right].
      apply in_app_or in H. destruct H as [H|[<-|[]]];
        [now left | right; now left].
    + apply in_app_or in Hw. destruct Hw as [Hw|Hw].
      * destruct cur; simpl in Hw; [contradiction|].
        destruct Hw as [<-|[]]. now left.
      * destruct (IH _ _ _ Hw Hc) as [[]|H]. right. now right.
Qed.

Lemma firstn_In {A : Type} (n : nat) (l : list A) (x : A) :
  In x (firstn n l) -> In x l.
Proof.
  intros H. rewrite <- (firstn_skipn n l). apply in_or_app. now left.
Qed.

Lemma lower_char_not_upper (c : ascii) : is_upper (lower_char c) = false.
Proof. each_char c; reflexivity. Qed.

(** C6, as amended.  For every title, [generate_tags] returns the first five,
    in order of appearance and without deduplication, of the words of the
    lowercased title that are made of letters only, have at least 4 of them
    and are not stop words, a word being a maximal run of letters, digits and
    underscores; every tag is a lowercase alphabetic word of length at least
    4 that is not a stop word, and there are at most 5 tags. *)
Theorem generate_tags_alphabetic_words (title : text) :
  generate_tags title = tags_of_alphabetic_words title /\
  List.length (generate_tags title) <= 5 /\
  Forall (fun tag => Forall (fun c => is_lower c = true) tag
                     /\ 4 <= List.length tag
                     /\ is_stop_word tag = false)
         (generate_tags title).
Proof.
  split; [apply generate_tags_words|]. rewrite generate_tags_words.
  unfold tags_of_alphabetic_words. split; [apply firstn_le_length|].
  apply Forall_forall. intros tag Hin.
  apply firstn_In in Hin. apply filter_In in Hin.
  destruct Hin as [Hin Hstop]. apply negb_true_iff in Hstop.
  unfold alphabetic_words in Hin. apply filter_In in Hin.
  destruct Hin as [Hrun Hkeep]. apply andb_true_iff in Hkeep.
  destruct Hkeep as [Hall Hlen]. apply Nat.leb_le in Hlen.
  split; [|split; assumption].
  apply Forall_forall. intros c Hc.
  rewrite forallb_forall in Hall. specialize (Hall c Hc).
  destruct (runs_from_chars _ _ _ _ _ Hrun Hc) as [[]|Hs].
  unfold lower in Hs. apply in_map_iff in Hs. destruct Hs as [c0 [<- _]].
  unfold is_letter in Hall. now rewrite lower_char_not_upper in Hall.
Qed.

(** C6, as stated, fails: in the title "log4shell" the alphabetic run
    "shell" has five letters and is not a stop word, and [generate_tags]
    returns no tag, the run being preceded by a digit. *)
Lemma generate_tags_skips_run_after_digit :
  generate_tags (txt "log4shell") = []
  /\ tags_of_alphabetic_runs (txt "log4shell") = [txt "shell"]
  /\ generate_tags (txt "log4shell") <> tags_of_alphabetic_runs (txt "log4shell").
Proof. repeat split; try reflexivity. discriminate. Qed.

(** ** Properties of [parse_rss_item] *)




(** A title of a single space has text, so an Article is returned; its
    title, which is stripped, is empty. *)
Example parse_rss_item_blank_title :
  let item := Elem "item" None [Elem "title" (Some (txt " ")) []] in
  title_text item = Some (txt " ") /\
  exists a, parse_rss_item item (txt "The Hacker News") [] = Some a /\
            title a = [].
Proof.
  split; [reflexivity|]. eexists. split; reflexivity.
Qed.

(** C7. For every item whose [title] has text and whose sanitized description
    has at least 10000 characters, [parse_rss_item] returns an Article whose
    content is the first 10000 characters and whose summary is the first 300
    characters of the sanitized description; category, severity and CVEs are
    computed from the untruncated title and sanitized description; and the
    title is cut to 500 characters. *)
Theorem parse_rss_item_truncation (item : Element) (source : text)
    (namespaces : list (string * string)) (t d : text) :
  title_text item = Some t ->
  truthy_text (find "description" item) = Some d ->
  10000 <= List.length (sanitize d) ->
  exists a,
    parse_rss_item item source namespaces = Some a /\
    content a = firstn 10000 (sanitize d) /\ List.length (content a) = 10000 /\
    summary a = firstn 300 (sanitize d) /\ List.length (summary a) = 300 /\
    category_slug a = categorize_article (strip t) (sanitize d) /\
    severity a = determine_severity (strip t) (sanitize d) /\
    cves a = extract_cves (strip t ++ txt " " ++ sanitize d) /\
    title a = firstn 500 (strip t) /\ List.length (title a) <= 500.
Proof.
  unfold title_text, parse_rss_item. intros Ht Hd Hlen.
  destruct (find "title" item) as [el|]; [|discriminate].
  rewrite Ht, Hd. eexists. split; [reflexivity|]. cbn [content summary
    category_slug severity cves title].
  repeat split; try apply firstn_le_length;
    rewrite length_firstn; apply Nat.min_l; [exact Hlen|].
  transitivity 10000; [|exact Hlen]. apply Nat.leb_le. vm_compute. reflexivity.
Qed.

(** The truncation theorem at an item whose description has more than 10000
    characters once sanitized. *)
Lemma parse_rss_item_truncation_witness :
  exists a,
    parse_rss_item long_item (txt "The Hacker News") [] = Some a /\
    List.length (content a) = 10000 /\ List.length (summary a) = 300 /\
    List.length (title a) <= 500.
Proof.
  destruct (parse_rss_item_truncation long_item (txt "The Hacker News") []
              (txt " Critical RCE vulnerability in product X ")
              long_description)
    as (a & Ha & _ & Hc & _ & Hs & _ & _ & _ & _ & Ht).
  - reflexivity.
  - reflexivity.
  - apply Nat.leb_le. vm_compute. reflexivity.
  - exists a. split; [exact Ha|]. split; [exact Hc|]. split; [exact Hs|].
    exact Ht.
Defined.

(** ** Properties of the webhook publisher *)

Lemma webhook_request_signed (env : Env) (execution_id timestamp : text)
    (a : Article) :
  signed env (webhook_request env execution_id timestamp a).
Proof. split; reflexivity. Qed.

(** The answers of [post_to_webhook], case by case. *)
Lemma post_to_webhook_cases (env : Env) (execution_id timestamp : text)
    (reply : Request -> exchange) (a : Article) :
  let req := webhook_request env execution_id timestamp a in
  (post_to_webhook env execution_id timestamp reply a = Returned true <->
   exists status body,
     reply req = Replies status (JsonObject body) /\ accepted status = true) /\
  (post_to_webhook env execution_id timestamp reply a = Returned false <->
   reply req = RaisesURLError \/
   exists status body,
     reply req = Replies status body /\ accepted status = false) /\
  (post_to_webhook env execution_id timestamp reply a = Raised <->
   reply req = RaisesOther \/
   exists status,
     reply req = Replies status NotJsonObject /\ accepted status = true).
Proof.
  cbv zeta. unfold post_to_webhook.
  destruct (reply (webhook_request env execution_id timestamp a))
    as [| |status body].
  - repeat split; intros H; try discriminate; try reflexivity; auto;
      repeat match goal with
             | H : _ \/ _ |- _ => destruct H
             | H : exists _, _ |- _ => destruct H
             | H : _ /\ _ |- _ => destruct H
             end; discriminate.
  - repeat split; intros H; try discriminate; try reflexivity; auto;
      repeat match goal with
             | H : _ \/ _ |- _ => destruct H
             | H : exists _, _ |- _ => destruct H
             | H : _ /\ _ |- _ => destruct H
             end; discriminate.
  - destruct (accepted status) eqn:A; [destruct body as [|field]|];
      repeat split; intros H; try discriminate; try reflexivity;
      try (repeat match goal with
                  | H : _ \/ _ |- _ => destruct H
                  | H : exists _, _ |- _ => destruct H
                  | H : _ /\ _ |- _ => destruct H
                  end; congruence).
    + right. exists status. now split.
    + exists status, field. now split.
    + right. exists status, body. now split.
Qed.

(** C3, at the failing input.  The webhook answers the POST with status 200
    and a body that is not a JSON object: the request completed without a
    transport error, and [post_to_webhook] returns neither [True] nor
    [False]; the exception leaves it, and the run that called it stops with
    the article counted and the process status 1. *)
Theorem post_to_webhook_raises_on_reply_not_json :
  let env :=
    {| json_dumps := json_dumps sample_env;
       encode := encode sample_env;
       hmac_sha256_hexdigest := hmac_sha256_hexdigest sample_env;
       utcnow := utcnow sample_env;
       get := get sample_env;
       send := fun _ _ => Replies 200 NotJsonObject |} in
  post_to_webhook env (utcnow env 0) (utcnow env 1) (send env 0) sample_article
  = Raised /\
  (exists st, run env [hacker_news] = Abort st /\
              total_articles st = 1 /\ success_count st = 0) /\
  exit_status (main_on env [hacker_news]) = 1.
Proof.
  cbv zeta. split; [reflexivity|]. split; [|reflexivity].
  eexists. split; [reflexivity|]. split; reflexivity.
Qed.

(** ** Properties of the orchestrator *)

Lemma process_item_step (env : Env) (source : text) (item : Element)
    (st : RunState) :
  let st' := state_of (process_item env source item st) in
  total_articles st' = total_articles st + articles_in source [item] /\
  success_count st <= success_count st' /\
  success_count st' + total_articles st <= success_count st + total_articles st' /\
  handled st' = handled st ++ [item] /\
  List.length (requests st') = List.length (requests st) + articles_in source [item].
Proof.
  cbv zeta. unfold process_item, articles_in, yields_article. simpl filter.
  destruct (parse_rss_item item source []) as [a|].
  - cbv zeta.
    destruct (post_to_webhook _ _ _ _ _) as [[|]|]; simpl;
      rewrite ?length_app; simpl; repeat split; lia.
  - simpl. repeat split; lia.
Qed.

Lemma process_item_signed (env : Env) (source : text) (item : Element)
    (st : RunState) :
  Forall (signed env) (requests st) ->
  Forall (signed env) (requests (state_of (process_item env source item st))).
Proof.
  intros H. unfold process_item.
  destruct (parse_rss_item item source []) as [a|]; simpl; [|exact H].
  assert (Forall (signed env)
            (requests st ++
             [webhook_request env (utcnow env (2 * List.length (requests st)))
                (utcnow env (2 * List.length (requests st) + 1)) a])).
  { apply Forall_app. split; [exact H|]. constructor; [|constructor].
    apply webhook_request_signed. }
  destruct (post_to_webhook _ _ _ _ _) as [[|]|]; simpl; assumption.
Qed.

Section Loop.
Context {A : Type}.
Variable body : A -> RunState -> flow.
Variable P : RunState -> Prop.
Hypothesis body_keeps : forall x st, P st -> P (state_of (body x st)).

(** What every iteration keeps, the loop keeps. *)
Lemma for_each_keeps (l : list A) : forall st,
  P st -> P (state_of (for_each body l st)).
Proof.
  induction l as [|x l IH]; intros st H; simpl; [exact H|].
  pose proof (body_keeps x st H) as Hx.
  destruct (body x st) as [st'|st']; simpl in *; [now apply IH | exact Hx].
Qed.
End Loop.

(** The inner loop handles a prefix of its items, all of them when no
    exception leaves it, and counts the articles among those it handled. *)
Lemma for_each_item (env : Env) (source : text) (items : list Element) :
  forall st,
  let f := for_each (process_item env source) items st in
  exists done rest,
    items = done ++ rest /\
    handled (state_of f) = handled st ++ done /\
    (completes f = true -> rest = []) /\
    total_articles (state_of f) = total_articles st + articles_in source done /\
    List.length (requests (state_of f))
    = List.length (requests st) + articles_in source done.
Proof.
  cbv zeta. induction items as [|item items IH]; intros st; simpl.
  - exists [], []. unfold articles_in. simpl. rewrite app_nil_r.
    repeat split; auto.
  - destruct (process_item_step env source item st)
      as (Ht & _ & _ & Hh & Hr).
    destruct (process_item env source item st) as [st'|st'] eqn:E;
      simpl in Ht, Hh, Hr.
    + destruct (IH st') as (done & rest & Hi & Hh' & Hc & Ht' & Hr').
      exists (item :: done), rest. rewrite Hh', Ht', Hr', Hh, Ht, Hr.
      unfold articles_in in *. simpl.
      destruct (yields_article source item); simpl; rewrite <- ?app_assoc;
        simpl; repeat split; auto; try lia; now rewrite Hi.
    + exists [item], items. simpl. rewrite Hh, Ht, Hr.
      repeat split; auto. discriminate.
Qed.

Lemma articles_in_le (source : text) (items : list Element) :
  articles_in source items <= List.length items.
Proof. apply filter_length_le. Qed.

Lemma firstn_prefix_length {A : Type} (n : nat) (l done rest : list A) :
  firstn n l = done ++ rest -> List.length done <= n.
Proof.
  intros H. pose proof (firstn_le_length n l) as Hle.
  rewrite H, length_app in Hle. lia.
Qed.

Lemma process_feed_keeps (env : Env) (P : RunState -> Prop) :
  (forall source item st, P st -> P (state_of (process_item env source item st))) ->
  forall feed_info st, P st -> P (state_of (process_feed env feed_info st)).
Proof.
  intros Hitem feed_info st H. unfold process_feed.
  destruct (fetch_rss_feed env (url feed_info)) as [[root|]|]; simpl;
    try exact H.
  apply for_each_keeps; [|exact H]. intros x st0. apply Hitem.
Qed.

Lemma run_keeps (env : Env) (P : RunState -> Prop) (feeds : list FeedInfo) :
  (forall source item st, P st -> P (state_of (process_item env source item st))) ->
  P initial -> P (state_of (run env feeds)).
Proof.
  intros Hitem H0. unfold run. apply for_each_keeps; [|exact H0].
  intros feed_info st. now apply process_feed_keeps.
Qed.

Lemma run_reachable (env : Env) (feeds : list FeedInfo) :
  reachable env (state_of (run env feeds)).
Proof.
  apply run_keeps; [|constructor]. intros source item st. apply reach_item.
Qed.

Lemma reachable_invariant (env : Env) (st : RunState) :
  reachable env st -> success_count st <= total_articles st.
Proof.
  induction 1 as [|source item st _ IH]; [simpl; lia|].
  destruct (process_item_step env source item st) as (_ & _ & H & _). lia.
Qed.

(** A run in which no exception other than those handled is raised comes to
    its end. *)
Lemma run_completes (env : Env) (feeds : list FeedInfo) :
  handled_errors_only env -> exists st, run env feeds = Normal st.
Proof.
  intros [Hget Hsend].
  assert (Hitem : forall source item st,
            exists st', process_item env source item st = Normal st').
  { intros source item st. unfold process_item, post_to_webhook.
    destruct (parse_rss_item item source []) as [a|]; [|eexists; reflexivity].
    cbv zeta. simpl requests.
    destruct (Hsend (List.length (requests st))
                (webhook_request env
                   (utcnow env (2 * List.length (requests st)))
                   (utcnow env (2 * List.length (requests st) + 1)) a))
      as [->|[status [body ->]]]; [eexists; reflexivity|].
    destruct (accepted status); eexists; reflexivity. }
  assert (Hitems : forall source items st,
            exists st', for_each (process_item env source) items st = Normal st').
  { intros source items. induction items as [|item items IH]; intros st; simpl.
    - now exists st.
    - destruct (Hitem source item st) as [st' ->]. apply IH. }
  assert (Hfeed : forall feed_info st,
            exists st', process_feed env feed_info st = Normal st').
  { intros feed_info st. unfold process_feed, fetch_rss_feed.
    specialize (Hget (url feed_info)).
    destruct (get env (url feed_info)) as [| |root];
      [now exists st | contradiction | apply Hitems]. }
  unfold run. generalize initial.
  induction feeds as [|feed_info feeds IH]; intros st; simpl.
  - now exists st.
  - destruct (Hfeed feed_info st) as [st' ->]. apply IH.
Qed.

(** The example environment raises nothing unhandled, and its run comes to
    its end. *)
Lemma run_completes_witness :
  handled_errors_only sample_env /\
  exists st, run sample_env RSS_FEEDS = Normal st.
Proof.
  assert (H : handled_errors_only sample_env).
  { split.
    - intros u. unfold sample_env, get.
      destruct (text_eqb u (url hacker_news)); discriminate.
    - intros n r. right. now exists 200, (Some (txt "ok")). }
  split; [exact H|]. exact (run_completes sample_env RSS_FEEDS H).
Defined.

(** C4, as amended.  Every request built by [post_to_webhook] is a POST
    whose body is the serialized payload and which carries, with the header
    [Content-Type: application/json], a header named [X-N8N-Signature] whose
    value is [sha256=] followed by the HMAC-SHA256 hex digest, keyed with the
    shared secret, of exactly that body; and so is every request of a run. *)
Theorem webhook_request_signature (env : Env) :
  (forall execution_id timestamp a,
     let r := webhook_request env execution_id timestamp a in
     method r = "POST" /\ full_url r = WEBHOOK_URL /\
     data r = encode env (json_dumps env (webhook_payload execution_id timestamp a)) /\
     header "Content-Type" r = Some (txt "application/json") /\
     header "X-N8N-Signature" r
     = Some (txt "sha256="
             ++ hmac_sha256_hexdigest env (encode env WEBHOOK_SECRET) (data r))) /\
  (forall feeds, Forall (signed env) (requests (state_of (run env feeds)))).
Proof.
  split.
  - intros execution_id timestamp a. cbv zeta. repeat split.
  - intros feeds. apply (run_keeps env (fun st => Forall (signed env) (requests st))).
    + intros source item st. apply process_item_signed.
    + constructor.
Qed.

(** C4, as stated, fails: the request carries no header named
    [X-Signature]; the signature travels under [X-N8N-Signature]. *)
Lemma webhook_request_no_x_signature :
  let r := webhook_request sample_env (txt "2024-01-01T00:00:00")
             (txt "2024-01-01T00:00:00") sample_article in
  header "X-Signature" r = None /\
  header "X-N8N-Signature" r = Some (txt "sha256=00").
Proof. split; reflexivity. Qed.

(** C8. For every feed document fetched, the orchestrator hands to
    [parse_rss_item] a prefix of the first 10 discovered items, in document
    order, and all of these 10 when no exception stops it; the discovered
    items are the [item] elements, and the Atom [entry] elements only when
    there is no [item]; the feed adds to [total_articles] the number of
    Articles among the items handled, at most 10, and as many requests. *)
Theorem process_feed_first_ten (env : Env) (feed_info : FeedInfo)
    (st : RunState) (root : Element) :
  get env (url feed_info) = Fetched root ->
  let f := process_feed env feed_info st in
  let items := discover_items root in
  (exists done rest,
     firstn 10 items = done ++ rest /\
     handled (state_of f) = handled st ++ done /\
     (completes f = true -> rest = []) /\
     total_articles (state_of f)
     = total_articles st + articles_in (name feed_info) done /\
     List.length (requests (state_of f))
     = List.length (requests st) + articles_in (name feed_info) done) /\
  total_articles (state_of f) <= total_articles st + 10 /\
  (items = findall_descendants "item" root \/
   findall_descendants "item" root = [] /\
   items = findall_descendants "{http://www.w3.org/2005/Atom}entry" root).
Proof.
  intros Hget. cbv zeta. unfold process_feed, fetch_rss_feed. rewrite Hget.
  destruct (for_each_item env (name feed_info)
              (firstn 10 (discover_items root)) st)
    as (done & rest & Hsplit & Hh & Hc & Ht & Hr).
  split; [now exists done, rest|]. split.
  - rewrite Ht. pose proof (articles_in_le (name feed_info) done).
    pose proof (firstn_prefix_length _ _ _ _ Hsplit). lia.
  - unfold discover_items.
    destruct (findall_descendants "item" root); [right | left]; auto.
Qed.

(** The scenario of a feed of 12 items: the first 10 are handled, and no
    more than 10 articles are counted. *)
Lemma process_feed_first_ten_witness :
  get sample_env (url hacker_news) = Fetched twelve_items /\
  List.length (discover_items twelve_items) = 12 /\
  handled (state_of (process_feed sample_env hacker_news initial))
  = firstn 10 (discover_items twelve_items) /\
  total_articles (state_of (process_feed sample_env hacker_news initial)) <= 10.
Proof.
  destruct (process_feed_first_ten sample_env hacker_news initial twelve_items
              eq_refl) as (_ & Hle & _).
  split; [reflexivity|]. split; [reflexivity|].
  split; [vm_compute; reflexivity|]. exact Hle.
Defined.

(** For every run that comes to the end of [main], over any feeds and any
    answers of the network, the status returned to the process is zero if
    and only if [success_count] is above zero at the end; with no success,
    and so with no article found at all, it is not zero. *)
Theorem main_exit_status (env : Env) (feeds : list FeedInfo) (st : RunState) :
  run env feeds = Normal st ->
  (exit_status (main_on env feeds) = 0 <-> 0 < success_count st) /\
  (success_count st = 0 -> exit_status (main_on env feeds) <> 0) /\
  (total_articles st = 0 -> exit_status (main_on env feeds) <> 0).
Proof.
  intros Hrun.
  pose proof (reachable_invariant env _ (run_reachable env feeds)) as Hinv.
  unfold main_on. rewrite Hrun in *. simpl in *.
  destruct (Nat.ltb_spec 0 (success_count st)); simpl;
    repeat split; intros; try lia; try discriminate.
Qed.

(** A run over the configured feeds in which ten articles are delivered:
    the status is 0. *)
Lemma main_exit_status_witness :
  run sample_env RSS_FEEDS = Normal (state_of (run sample_env RSS_FEEDS)) /\
  success_count (state_of (run sample_env RSS_FEEDS)) = 10 /\
  exit_status (main sample_env) = 0.
Proof.
  split; [vm_compute; reflexivity|]. split; [vm_compute; reflexivity|].
  apply (main_exit_status sample_env RSS_FEEDS
           (state_of (run sample_env RSS_FEEDS))).
  - vm_compute. reflexivity.
  - vm_compute. lia.
Defined.

(** C9, at the failing input.  The webhook answers the first POST with a
    JSON object and the second with status 200 and a body that is not JSON:
    the first article is delivered, the exception raised for the second
    leaves [post_to_webhook] and [main], and the process ends with status 1
    while [success_count] is 1.  The status is not zero although
    [success_count] is above zero. *)
Theorem main_exit_status_after_abort :
  (exists st,
     run faltering_env RSS_FEEDS = Abort st /\
     total_articles st = 2 /\ success_count st = 1) /\
  exit_status (main faltering_env) = 1 /\
  ~ (exit_status (main faltering_env) = 0 <->
     0 < success_count (state_of (run faltering_env RSS_FEEDS))).
Proof.
  split; [|split].
  - eexists. split; [vm_compute; reflexivity|]. split; reflexivity.
  - vm_compute. reflexivity.
  - assert (Hs : success_count (state_of (run faltering_env RSS_FEEDS)) = 1)
      by (vm_compute; reflexivity).
    assert (He : exit_status (main faltering_env) = 1)
      by (vm_compute; reflexivity).
    rewrite Hs, He. intros [_ H]. assert (H0 : 1 = 0) by (apply H; lia).
    discriminate.
Qed.

(** C10. Both counters start at zero; each item processed adds to
    [total_articles] exactly one when it yields an Article and nothing
    otherwise, and adds to [success_count] at most one and no more than it
    adds to [total_articles]; so after every item of every run
    [success_count <= total_articles], as at the end of the run. *)
Theorem counters_invariant (env : Env) (feeds : list FeedInfo) :
  total_articles initial = 0 /\ success_count initial = 0 /\
  (forall source item st,
     let st' := state_of (process_item env source item st) in
     total_articles st'
     = total_articles st + (if yields_article source item then 1 else 0) /\
     success_count st <= success_count st' <= success_count st + 1 /\
     success_count st' - success_count st
     <= total_articles st' - total_articles st) /\
  (forall st, reachable env st -> 0 <= success_count st <= total_articles st) /\
  reachable env (state_of (run env feeds)).
Proof.
  split; [reflexivity|]. split; [reflexivity|]. split; [|split].
  - intros source item st. cbv zeta.
    destruct (process_item_step env source item st) as (Ht & Hs & Hd & _).
    unfold articles_in in Ht. simpl in Ht.
    destruct (yields_article source item); simpl in Ht; lia.
  - intros st H. apply reachable_invariant in H. lia.
  - apply run_reachable.
Qed.

(** The scenario of an unreachable webhook: ten articles found, none
    delivered, and the process status is 1. *)
Example main_webhook_unreachable :
  total_articles (state_of (run unreachable_env RSS_FEEDS)) = 10 /\
  success_count (state_of (run unreachable_env RSS_FEEDS)) = 0 /\
  main unreachable_env = Returned 1 /\
  exit_status (main unreachable_env) = 1.
Proof. vm_compute. repeat split. Qed.

(** ** Properties of [sanitize] *)

Lemma occurs_trans (a b c : text) : occurs a b -> occurs b c -> occurs a c.
Proof.
  intros [p1 [q1 ->]] [p2 [q2 ->]]. exists (p2 ++ p1), (q1 ++ q2).
  now rewrite <- !app_assoc.
Qed.

Lemma remove_from_In (m : option ascii -> text -> option text) (s : text) :
  forall prev skip x, In x (remove_from m prev skip s) -> In x s.
Proof.
  induction s as [|c s IH]; intros prev skip x H; simpl in H; [contradiction|].
  destruct skip as [|n].
  - destruct (m prev (c :: s)) as [w|].
    + right. eapply IH, H.
    + destruct H as [<-|H]; [now left | right; eapply IH, H].
  - right. eapply IH, H.
Qed.

Lemma remove_from_length (m : option ascii -> text -> option text) (s : text) :
  forall prev skip,
    List.length (remove_from m prev skip s) <= List.length s.
Proof.
  induction s as [|c s IH]; intros prev skip; simpl; [lia|].
  destruct skip as [|n].
  - destruct (m prev (c :: s)) as [w|]; simpl.
    + specialize (IH (Some c) (List.length w - 1)). lia.
    + specialize (IH (Some c) 0). lia.
  - specialize (IH (Some c) n). lia.
Qed.

Lemma match_markup_bracket (s : text) :
  match_markup ("<"%char :: s) =
  let body := take_while (fun c => negb (Ascii.eqb c ">")) s in
  match body, skipn (List.length body) s with
  | _ :: _, gt :: _ => Some ("<"%char :: body ++ [gt])
  | _, _ => None
  end.
Proof. reflexivity. Qed.

(** Where the tag pattern fails at an opening bracket, the bracket is
    directly followed by a closing one or followed by none. *)
Lemma match_markup_fails (s : text) :
  match_markup ("<"%char :: s) = None ->
  (exists s', s = ">"%char :: s') \/ ~ In ">"%char s.
Proof.
  rewrite match_markup_bracket. cbv zeta.
  destruct (take_while_split (fun c => negb (Ascii.eqb c ">")) s)
    as [post [Hs Hpost]].
  pose proof (take_while_Forall (fun c => negb (Ascii.eqb c ">")) s) as Hbody.
  remember (take_while (fun c => negb (Ascii.eqb c ">")) s) as body eqn:E.
  assert (Hskip : skipn (List.length body) s = post).
  { rewrite Hs at 1. rewrite skipn_app, Nat.sub_diag, skipn_all. reflexivity. }
  destruct body as [|b body]; [|rewrite Hskip].
  - intros _. simpl in Hs. subst post. destruct s as [|x s]; [right; intros []|].
    left. apply negb_false_iff, Ascii.eqb_eq in Hpost. subst x. now exists s.
  - destruct post as [|x post]; [|discriminate]. intros _. right.
    rewrite Hs, app_nil_r. intros Hin. rewrite Forall_forall in Hbody.
    apply Hbody in Hin. now rewrite Ascii.eqb_refl in Hin.
Qed.

Lemma match_markup_not_bracket (c : ascii) (s : text) :
  c <> "<"%char -> match_markup (c :: s) = None.
Proof.
  intros H. simpl. destruct (Ascii.eqb c "<") eqn:E; [|reflexivity].
  apply Ascii.eqb_eq in E. contradiction.
Qed.

Lemma remove_markup_spent (s : text) : forall prev skip,
  brackets_spent (remove_from (fun _ => match_markup) prev skip s).
Proof.
  induction s as [|c s IH]; intros prev skip; cbn [remove_from]; cbv beta.
  - intros pre post H. destruct pre; discriminate.
  - destruct skip as [|n]; [|apply IH].
    destruct (match_markup (c :: s)) as [w|] eqn:E; [apply IH|].
    intros pre post H. destruct pre as [|x pre].
    + simpl in H. injection H as -> Hpost.
      destruct (match_markup_fails s E) as [[s' ->]|Hno].
      * left. rewrite <- Hpost. cbn [remove_from]. cbv beta.
        rewrite match_markup_not_bracket by discriminate. eauto.
      * right. intros Hin. apply Hno. rewrite <- Hpost in Hin.
        eapply remove_from_In, Hin.
    + simpl in H. injection H as _ H. exact (IH _ _ pre post H).
Qed.

Lemma brackets_spent_no_markup (r w : text) :
  brackets_spent r -> markup_shaped w -> ~ occurs w r.
Proof.
  intros Hr [body [Hne [Hbody ->]]] [pre [post H]].
  simpl in H. rewrite <- app_assoc in H. simpl in H.
  destruct (Hr pre _ H) as [[post' Hp]|Hno].
  - destruct body as [|b body]; [contradiction|].
    simpl in Hp. injection Hp as -> _. inversion Hbody. congruence.
  - apply Hno. apply in_or_app. right. now left.
Qed.

Lemma lstrip_split (s : text) :
  exists ws, s = ws ++ lstrip s /\
             (forall c s', lstrip s = c :: s' -> is_space c = false).
Proof.
  induction s as [|c s [ws [Hs Hh]]]; simpl.
  - exists []. split; [reflexivity | discriminate].
  - destruct (is_space c) eqn:E.
    + exists (c :: ws). split; [simpl; now rewrite <- Hs | exact Hh].
    + exists []. split; [reflexivity|]. intros c0 s' H. now injection H as <- _.
Qed.

Lemma rstrip_split (s : text) :
  (exists ws, s = rstrip s ++ ws) /\
  (forall c s', rstrip s = s' ++ [c] -> is_space c = false) /\
  (forall c s', s = c :: s' -> is_space c = false ->
                exists r, rstrip s = c :: r).
Proof.
  induction s as [|x s [[ws Hs] [Hlast _]]]; simpl.
  - split; [now exists []|]. split; [|discriminate].
    intros c s' H. destruct s'; discriminate.
  - destruct (rstrip s) as [|y r] eqn:E.
    + destruct (is_space x) eqn:Ex.
      * split; [exists (x :: s); reflexivity|]. split.
        -- intros c s' H. destruct s'; discriminate.
        -- intros c s' H Hc. injection H as <- _. congruence.
      * split; [exists s; reflexivity|]. split.
        -- intros c s' H. destruct s' as [|z s'].
           ++ now injection H as <-.
           ++ injection H as _ H. destruct s'; discriminate.
        -- intros c s' H _. injection H as <- _. now exists [].
    + split; [exists ws; simpl; now rewrite Hs at 1|]. split.
      * intros c s' H. destruct s' as [|z s'].
        -- discriminate.
        -- injection H as _ H. exact (Hlast c s' H).
      * intros c s' H _. injection H as <- _. now exists (y :: r).
Qed.

Lemma strip_trimmed (s : text) : trimmed (strip s) /\ occurs (strip s) s.
Proof.
  unfold strip. destruct (lstrip_split s) as [ws [Hs Hhead]].
  destruct (rstrip_split (lstrip s)) as [[ws' Hr] [Hlast Hkeep]].
  split; [split|].
  - intros c s' H. destruct (lstrip s) as [|x l] eqn:E.
    + simpl in H. discriminate.
    + pose proof (Hhead x l eq_refl) as Hx.
      destruct (Hkeep x l eq_refl Hx) as [r Hxr]. rewrite Hxr in H.
      now injection H as <- _.
  - exact Hlast.
  - exists ws, ws'. now rewrite <- Hr.
Qed.

(** The sanitized description holds no tag-like substring, neither begins
    nor ends with whitespace, and is made of characters of the description,
    no more of them than it had. *)
Theorem sanitize_clean (d : text) :
  ~ (exists w, markup_shaped w /\ occurs w (sanitize d)) /\
  trimmed (sanitize d) /\
  (forall c, In c (sanitize d) -> In c d) /\
  List.length (sanitize d) <= List.length d.
Proof.
  unfold sanitize, remove_all.
  set (r1 := remove_from (fun _ => match_cdata) None 0 d).
  set (r2 := remove_from (fun _ => match_markup) None 0 r1).
  destruct (strip_trimmed r2) as [Htrim Hocc].
  assert (Hsub : forall c, In c (strip r2) -> In c r2).
  { intros c H. destruct Hocc as [p [q Hq]]. rewrite Hq.
    apply in_or_app. right. apply in_or_app. now left. }
  split; [|split; [exact Htrim|split]].
  - intros [w [Hw Hin]].
    apply (brackets_spent_no_markup r2 w); [apply remove_markup_spent | exact Hw|].
    exact (occurs_trans _ _ _ Hin Hocc).
  - intros c H. apply Hsub in H. unfold r2 in H. apply remove_from_In in H.
    unfold r1 in H. now apply remove_from_In in H.
  - destruct Hocc as [p [q Hq]].
    assert (List.length (strip r2) <= List.length r2)
      by (rewrite Hq at 2; rewrite !length_app; lia).
    pose proof (remove_from_length (fun _ => match_markup) r1 None 0).
    pose proof (remove_from_length (fun _ => match_cdata) d None 0).
    fold r1 in H1, H0. fold r2 in H0. lia.
Qed.

(** ** Further properties of the classifier *)

Lemma table_result_range (default : string) (t : text) (table : keyword_table) :
  In (table_result default t table) (map fst table ++ [default]).
Proof.
  unfold table_result. induction table as [|[label keywords] rest IH]; simpl.
  - now left.
  - destruct (keyword_loop keywords t); [now left | now right].
Qed.

(** Both classifiers return one of their labels, whatever the input. *)
Theorem classification_range (title content : text) :
  In (categorize_article title content) category_slugs /\
  In (determine_severity title content) severities.
Proof.
  split.
  - exact (table_result_range "industry-news"
             (lower (title ++ txt " " ++ content)) CATEGORY_KEYWORDS).
  - exact (table_result_range "medium"
             (lower (title ++ txt " " ++ content)) SEVERITY_KEYWORDS).
Qed.

Lemma lower_char_idem (c : ascii) : lower_char (lower_char c) = lower_char c.
Proof. each_char c; reflexivity. Qed.

Lemma lower_idem (s : text) : lower (lower s) = lower s.
Proof.
  unfold lower. rewrite map_map. apply map_ext. exact lower_char_idem.
Qed.

Lemma lower_app (a b : text) : lower (a ++ b) = lower a ++ lower b.
Proof. apply map_app. Qed.

(** Classification and tagging do not depend on the case of the letters:
    two titles, and two contents, that are equal once lowercased are
    classified and tagged alike. *)
Theorem classification_ignores_case (title content title' content' : text) :
  lower title = lower title' -> lower content = lower content' ->
  categorize_article title content = categorize_article title' content' /\
  determine_severity title content = determine_severity title' content' /\
  generate_tags title = generate_tags title'.
Proof.
  intros Ht Hc. unfold categorize_article, determine_severity, generate_tags.
  cbv zeta. rewrite !lower_app, Ht, Hc. repeat split.
Qed.

Lemma classification_ignores_case_witness :
  categorize_article (txt "RANSOMWARE Hits Hospital") (txt "LockBit CLAIMS it")
  = categorize_article (txt "ransomware hits hospital") (txt "lockbit claims it")
  /\ categorize_article (txt "RANSOMWARE Hits Hospital") (txt "LockBit CLAIMS it")
     = "ransomware".
Proof.
  destruct (classification_ignores_case
              (txt "RANSOMWARE Hits Hospital") (txt "LockBit CLAIMS it")
              (txt "ransomware hits hospital") (txt "lockbit claims it")
              eq_refl eq_refl) as [H _].
  split; [exact H | reflexivity].
Defined.

(** ** Further properties of [extract_cves] and [generate_tags] *)

Lemma upper_char_digit (d : ascii) : is_digit d = true -> upper_char d = d.
Proof. each_char d; try discriminate; reflexivity. Qed.

Lemma upper_digits (ds : text) : Forall digit ds -> upper ds = ds.
Proof.
  induction 1 as [|d ds Hd _ IH]; simpl; [reflexivity|].
  now rewrite (upper_char_digit d Hd), IH.
Qed.

Lemma cve_shaped_upper (w : text) : cve_shaped w -> canonical_cve (upper w).
Proof.
  intros (c & v & e & d1 & d2 & d3 & d4 & ds & -> & Hc & Hv & He
          & D1 & D2 & D3 & D4 & Hne & Hds).
  exists [d1; d2; d3; d4], ds. unfold upper. rewrite map_app. fold (upper ds).
  rewrite (upper_digits ds Hds). simpl.
  rewrite (upper_char_digit d1 D1), (upper_char_digit d2 D2),
    (upper_char_digit d3 D3), (upper_char_digit d4 D4).
  repeat split; auto.
  destruct Hc as [-> | ->], Hv as [-> | ->], He as [-> | ->]; reflexivity.
Qed.

Lemma extract_cves_shapes (t : text) : Forall canonical_cve (extract_cves t).
Proof.
  apply Forall_forall. intros x Hx. unfold extract_cves in Hx.
  apply nodup_In, in_map_iff in Hx. destruct Hx as [w [<- Hw]].
  apply findall_cve_In in Hw. destruct Hw as [pre [post [_ [Hshape _]]]].
  now apply cve_shaped_upper.
Qed.

(** Every identifier returned by [extract_cves] reads [CVE-], in capitals,
    four digits, a hyphen and one or more digits. *)
Theorem extract_cves_canonical (t : text) :
  Forall canonical_cve (extract_cves t).
Proof. exact (extract_cves_shapes t). Qed.

(** A text in which a CVE identifier is found holds the keyword [cve], and
    is filed under the first category. *)
Lemma cve_text_is_vulnerability (title content : text) :
  extract_cves (title ++ txt " " ++ content) <> [] ->
  categorize_article title content = "vulnerabilities".
Proof.
  intros Hne.
  destruct (extract_cves (title ++ txt " " ++ content)) as [|x l] eqn:E;
    [contradiction|].
  assert (Hx : In x (extract_cves (title ++ txt " " ++ content)))
    by (rewrite E; now left).
  unfold extract_cves in Hx. apply nodup_In, in_map_iff in Hx.
  destruct Hx as [w [_ Hw]]. apply findall_cve_In in Hw.
  destruct Hw as [pre [post [Ht [Hshape _]]]].
  destruct Hshape as (c & v & e & d1 & d2 & d3 & d4 & ds & -> & Hc & Hv & He & _).
  assert (Hocc : occurs (txt "cve") (lower (title ++ txt " " ++ content))).
  { rewrite Ht, !lower_app.
    exists (lower pre),
           (lower ["-"; d1; d2; d3; d4; "-"]%char ++ lower ds ++ lower post).
    simpl.
    destruct Hc as [-> | ->], Hv as [-> | ->], He as [-> | ->]; reflexivity. }
  unfold categorize_article, CATEGORY_KEYWORDS. cbv zeta. cbn [table_loop].
  assert (Hk : keyword_loop
                 (map txt ["vulnerability"; "cve"; "exploit"; "zero-day";
                           "patch"; "security flaw"; "bug"])
                 (lower (title ++ txt " " ++ content)) = true).
  { apply keyword_loop_true. exists (txt "cve"). split; [|exact Hocc].
    right. now left. }
  now rewrite Hk.
Qed.

Lemma runs_from_occurs (p : ascii -> bool) (s : text) : forall cur w,
  In w (runs_from p cur s) -> occurs w (cur ++ s).
Proof.
  induction s as [|c s IH]; intros cur w H; simpl in H.
  - destruct cur as [|x cur]; [contradiction|]. destruct H as [<-|[]].
    exists [], []. now rewrite app_nil_r.
  - destruct (p c).
    + apply IH in H. now rewrite <- app_assoc in H.
    + apply in_app_or in H. destruct H as [H|H].
      * destruct cur as [|x cur]; [contradiction|]. destruct H as [<-|[]].
        now exists [], (c :: s).
      * apply IH in H. destruct H as [pre [post H]]. simpl in H.
        exists (cur ++ c :: pre), post. rewrite H, <- app_assoc. reflexivity.
Qed.

(** Every tag occurs in the lowercased title as a substring. *)
Theorem generate_tags_occur (title : text) :
  Forall (fun tag => occurs tag (lower title)) (generate_tags title).
Proof.
  rewrite generate_tags_words. apply Forall_forall. intros tag H.
  unfold tags_of_alphabetic_words in H. apply firstn_In, filter_In in H.
  destruct H as [H _]. unfold alphabetic_words in H. apply filter_In in H.
  destruct H as [H _]. exact (runs_from_occurs _ _ _ _ H).
Qed.

(** ** Further properties of [parse_rss_item] *)

Lemma trimmed_nil : trimmed [].
Proof.
  split; intros c s' H; [discriminate | destruct s'; discriminate].
Qed.

(** The fields of an Article that is returned, in terms of the item. *)
Lemma parse_rss_item_fields (item : Element) (source : text)
    (namespaces : list (string * string)) (a : Article) :
  parse_rss_item item source namespaces = Some a ->
  exists t,
    title_text item = Some t /\
    title a = firstn 500 (strip t) /\
    content a = firstn 10000 (item_description item) /\
    summary a = firstn 300 (item_description item) /\
    category_slug a = categorize_article (strip t) (item_description item) /\
    severity a = determine_severity (strip t) (item_description item) /\
    tags a = generate_tags (strip t) /\
    cves a = extract_cves (strip t ++ txt " " ++ item_description item) /\
    source_url a = match truthy_text (find "link" item) with
                   | Some l => strip l
                   | None => []
                   end /\
    source_name a = source /\ vendors a = [] /\ skip_enrichment a = false.
Proof.
  unfold title_text, item_description, parse_rss_item.
  destruct (find "title" item) as [el|]; [|discriminate].
  destruct (elem_text el) as [t|]; [|discriminate].
  intros H. exists t. split; [reflexivity|].
  pose proof (f_equal (fun o => match o with Some x => x | None => a end) H)
    as Ha.
  cbv beta iota in Ha. subst a. repeat split.
Qed.

(** Whatever the item, an Article that is returned keeps the three length
    caps; its summary is the beginning of its content; it has at most five
    tags; its CVE identifiers are distinct and in canonical form; its category
    and severity are labels of the two tables or their defaults; its source
    URL carries no surrounding whitespace; the source name is passed through;
    and the two reserved fields are empty and false. *)
Theorem parse_rss_item_article_shape (item : Element) (source : text)
    (namespaces : list (string * string)) (a : Article) :
  parse_rss_item item source namespaces = Some a ->
  List.length (title a) <= 500 /\
  List.length (content a) <= 10000 /\
  List.length (summary a) <= 300 /\
  summary a = firstn 300 (content a) /\
  List.length (tags a) <= 5 /\
  NoDup (cves a) /\ Forall canonical_cve (cves a) /\
  In (category_slug a) category_slugs /\ In (severity a) severities /\
  trimmed (source_url a) /\ source_name a = source /\
  vendors a = [] /\ skip_enrichment a = false.
Proof.
  intros H. destruct (parse_rss_item_fields _ _ _ _ H)
    as (t & _ & Ht & Hc & Hs & Hcat & Hsev & Htags & Hcves & Hurl & Hsrc & Hv & Hk).
  rewrite Ht, Hc, Hs, Hcat, Hsev, Htags, Hcves, Hurl.
  split; [apply firstn_le_length|]. split; [apply firstn_le_length|].
  split; [apply firstn_le_length|]. split.
  { rewrite firstn_firstn. f_equal; vm_compute; reflexivity. }
  split; [unfold generate_tags; apply firstn_le_length|].
  split; [apply NoDup_nodup|]. split; [apply extract_cves_shapes|].
  split; [apply (table_result_range "industry-news" _ CATEGORY_KEYWORDS)|].
  split; [apply (table_result_range "medium" _ SEVERITY_KEYWORDS)|].
  split; [|repeat split; assumption].
  destruct (truthy_text (find "link" item));
    [apply strip_trimmed | apply trimmed_nil].
Qed.

Lemma parse_rss_item_article_shape_witness :
  exists a,
    parse_rss_item cve_item (txt "The Hacker News") [] = Some a /\
    summary a = firstn 300 (content a) /\
    source_url a = txt "https://example.org/b" /\
    Forall canonical_cve (cves a).
Proof.
  eexists. split; [reflexivity|].
  destruct (parse_rss_item_article_shape cve_item (txt "The Hacker News") [] _
              eq_refl) as (_ & _ & _ & Hs & _ & _ & Hc & _).
  split; [exact Hs|]. split; [reflexivity | exact Hc].
Defined.

(** An Article with a CVE identifier is always filed under
    [vulnerabilities]: the identifier holds the keyword [cve] of the first
    category. *)
Theorem article_with_cve_is_vulnerability (item : Element) (source : text)
    (namespaces : list (string * string)) (a : Article) :
  parse_rss_item item source namespaces = Some a ->
  cves a <> [] ->
  category_slug a = "vulnerabilities".
Proof.
  intros H. destruct (parse_rss_item_fields _ _ _ _ H)
    as (t & _ & _ & _ & _ & Hcat & _ & _ & Hcves & _).
  rewrite Hcat, Hcves. apply cve_text_is_vulnerability.
Qed.

Lemma article_with_cve_is_vulnerability_witness :
  exists a,
    parse_rss_item cve_item (txt "The Hacker News") [] = Some a /\
    cves a = [txt "CVE-2024-1234"] /\
    category_slug a = "vulnerabilities".
Proof.
  eexists. split; [reflexivity|]. split; [vm_compute; reflexivity|].
  apply (article_with_cve_is_vulnerability cve_item (txt "The Hacker News") []);
    [reflexivity | vm_compute; discriminate].
Defined.

(** A description of at most 300 characters once sanitized is kept whole in
    both content and summary; with no description, or an empty one, both are
    empty. *)
Theorem parse_rss_item_short_description (item : Element) (source : text)
    (namespaces : list (string * string)) (t : text) :
  title_text item = Some t ->
  List.length (item_description item) <= 300 ->
  exists a,
    parse_rss_item item source namespaces = Some a /\
    content a = item_description item /\
    summary a = item_description item /\
    (truthy_text (find "description" item) = None ->
     content a = [] /\ summary a = []).
Proof.
  unfold title_text, item_description, parse_rss_item. intros Ht Hlen.
  destruct (find "title" item) as [el|]; [|discriminate]. rewrite Ht.
  eexists. split; [reflexivity|]. cbn [content summary].
  assert (H10 : 300 <= 10000) by (apply Nat.leb_le; vm_compute; reflexivity).
  destruct (truthy_text (find "description" item)) as [d|].
  - rewrite !firstn_all2 by lia. repeat split; discriminate.
  - rewrite !firstn_nil. repeat split.
Qed.

Lemma parse_rss_item_short_description_witness :
  exists a,
    parse_rss_item (numbered_item 1) (txt "The Hacker News") [] = Some a /\
    content a = txt "Details" /\ summary a = txt "Details".
Proof.
  destruct (parse_rss_item_short_description (numbered_item 1)
              (txt "The Hacker News") [] (txt "Patch I") eq_refl)
    as (a & Ha & Hc & Hs & _).
  - vm_compute. lia.
  - exists a. split; [exact Ha|]. rewrite Hc, Hs. split; reflexivity.
Defined.

Lemma find_none (tag : string) (e : Element) :
  Forall (fun c => String.eqb (elem_tag c) tag = false) (elem_children e) ->
  find tag e = None.
Proof.
  unfold find. induction 1 as [|c cs Hc _ IH]; simpl; [reflexivity|].
  now rewrite Hc.
Qed.

(** An element whose children all carry namespace-qualified tags has no
    child [title], and yields no Article. *)
Lemma qualified_children_no_article (item : Element) (source : text)
    (namespaces : list (string * string)) :
  qualified_children item -> parse_rss_item item source namespaces = None.
Proof.
  intros H. unfold parse_rss_item. rewrite find_none; [reflexivity|].
  eapply Forall_impl; [|exact H]. intros c [rest Hc]. rewrite Hc. reflexivity.
Qed.

Lemma for_each_no_article (env : Env) (source : text) (items : list Element) :
  Forall (fun i => parse_rss_item i source [] = None) items ->
  forall st, exists st',
    for_each (process_item env source) items st = Normal st' /\
    total_articles st' = total_articles st /\
    success_count st' = success_count st /\
    requests st' = requests st.
Proof.
  induction 1 as [|item items Hi _ IH]; intros st; simpl.
  - now exists st.
  - unfold process_item at 1. rewrite Hi.
    destruct (IH {| total_articles := total_articles st;
                    success_count := success_count st;
                    handled := handled st ++ [item];
                    requests := requests st |}) as (st' & Hf & Ht & Hs & Hr).
    exists st'. now rewrite Hf.
Qed.

Lemma Forall_firstn {A : Type} (P : A -> Prop) (n : nat) (l : list A) :
  Forall P l -> Forall P (firstn n l).
Proof.
  rewrite !Forall_forall. intros H x Hx. apply H. eapply firstn_In, Hx.
Qed.

(** A document whose discovered items have only namespace-qualified
    children, as the entries of a parsed Atom feed have, contributes no
    article: the counters stay as they were and no request is sent. *)
Theorem qualified_entries_yield_nothing (env : Env) (feed_info : FeedInfo)
    (st : RunState) (root : Element) :
  get env (url feed_info) = Fetched root ->
  Forall qualified_children (discover_items root) ->
  exists st',
    process_feed env feed_info st = Normal st' /\
    total_articles st' = total_articles st /\
    success_count st' = success_count st /\
    requests st' = requests st.
Proof.
  intros Hget Hq. unfold process_feed, fetch_rss_feed. rewrite Hget.
  apply for_each_no_article. apply Forall_firstn.
  eapply Forall_impl; [|exact Hq]. intros item.
  apply qualified_children_no_article.
Qed.

Lemma qualified_entries_yield_nothing_witness :
  List.length (discover_items atom_feed) = 2 /\
  exists st',
    process_feed atom_env hacker_news initial = Normal st' /\
    total_articles st' = 0 /\ success_count st' = 0 /\ requests st' = [].
Proof.
  split; [reflexivity|].
  apply (qualified_entries_yield_nothing atom_env hacker_news initial atom_feed);
    [reflexivity|].
  repeat constructor; eexists; reflexivity.
Defined.

(** ** Further properties of the orchestrator *)

Lemma for_each_measure {A : Type} (body : A -> RunState -> flow)
    (mu : RunState -> nat) (k : nat) :
  (forall x st, mu (state_of (body x st)) <= mu st + k) ->
  forall l st, mu (state_of (for_each body l st)) <= mu st + k * List.length l.
Proof.
  intros Hbody l. induction l as [|x l IH]; intros st; simpl; [lia|].
  specialize (Hbody x st).
  destruct (body x st) as [st'|st']; simpl in *.
  - specialize (IH st'). lia.
  - lia.
Qed.

Lemma process_feed_handled (env : Env) (feed_info : FeedInfo) (st : RunState) :
  List.length (handled (state_of (process_feed env feed_info st)))
  <= List.length (handled st) + 10.
Proof.
  unfold process_feed.
  destruct (fetch_rss_feed env (url feed_info)) as [[root|]|];
    [|simpl; lia|simpl; lia].
  destruct (for_each_item env (name feed_info)
              (firstn 10 (discover_items root)) st)
    as (done & rest & Hsplit & Hh & _).
  rewrite Hh, length_app.
  pose proof (firstn_prefix_length _ _ _ _ Hsplit). lia.
Qed.

(** In every run, each counted article has been posted exactly once (there
    is no retry and no article is counted without a request); no more
    articles are counted than items handled; and no more than ten items per
    configured feed are handled. *)
Theorem run_bounds (env : Env) (feeds : list FeedInfo) :
  let st := state_of (run env feeds) in
  List.length (requests st) = total_articles st /\
  total_articles st <= List.length (handled st) /\
  List.length (handled st) <= 10 * List.length feeds.
Proof.
  cbv zeta. split; [|split].
  - apply (run_keeps env
             (fun st => List.length (requests st) = total_articles st));
      [|reflexivity].
    intros source item st H.
    destruct (process_item_step env source item st) as (Ht & _ & _ & _ & Hr).
    lia.
  - apply (run_keeps env
             (fun st => total_articles st <= List.length (handled st)));
      [|simpl; lia].
    intros source item st H.
    destruct (process_item_step env source item st) as (Ht & _ & _ & Hh & _).
    rewrite Ht, Hh, length_app. simpl.
    pose proof (articles_in_le source [item]). simpl in *. lia.
  - unfold run.
    pose proof (for_each_measure (process_feed env)
                  (fun st => List.length (handled st)) 10
                  (process_feed_handled env) feeds initial) as H.
    simpl in H. exact H.
Qed.

Lemma for_each_app {A : Type} (body : A -> RunState -> flow) (l1 l2 : list A) :
  forall st,
    for_each body (l1 ++ l2) st =
    match for_each body l1 st with
    | Normal st' => for_each body l2 st'
    | Abort st' => Abort st'
    end.
Proof.
  induction l1 as [|x l1 IH]; intros st; simpl; [reflexivity|].
  destruct (body x st) as [st'|st']; [apply IH | reflexivity].
Qed.

(** A feed whose fetch fails with a handled error is skipped: the run is
    the one that would have taken place without it. *)
Theorem run_skips_failed_feed (env : Env) (before after : list FeedInfo)
    (failing : FeedInfo) :
  get env (url failing) = FetchCaught ->
  run env (before ++ failing :: after) = run env (before ++ after).
Proof.
  intros Hget. unfold run. rewrite !for_each_app.
  destruct (for_each (process_feed env) before initial) as [st|st];
    [|reflexivity].
  simpl. unfold process_feed at 1, fetch_rss_feed. now rewrite Hget.
Qed.

Lemma run_skips_failed_feed_witness :
  run sample_env RSS_FEEDS = run sample_env [hacker_news].
Proof.
  exact (run_skips_failed_feed sample_env [hacker_news] []
           {| url := txt "https://www.bleepingcomputer.com/feed/";
              name := txt "BleepingComputer" |}
           ltac:(vm_compute; reflexivity)).
Defined.

(** When every fetch fails with a handled error, nothing is parsed or
    sent, both counters stay at zero, and [main] returns 1. *)
Theorem run_without_documents (env : Env) (feeds : list FeedInfo) :
  Forall (fun f => get env (url f) = FetchCaught) feeds ->
  run env feeds = Normal initial /\ main_on env feeds = Returned 1.
Proof.
  intros H. assert (Hrun : run env feeds = Normal initial).
  { unfold run. generalize initial.
    induction H as [|f fs Hf _ IH]; intros st; simpl; [reflexivity|].
    unfold process_feed at 1, fetch_rss_feed. rewrite Hf. apply IH. }
  split; [exact Hrun|]. unfold main_on. now rewrite Hrun.
Qed.

Lemma run_without_documents_witness :
  run offline_env RSS_FEEDS = Normal initial /\
  main offline_env = Returned 1.
Proof.
  apply (run_without_documents offline_env RSS_FEEDS).
  repeat constructor.
Defined.

Lemma delivered_from_app (env : Env) (rs : list Request) (r : Request) :
  forall n,
    delivered_from env n (rs ++ [r]) =
    delivered_from env n rs
    + (if is_delivered (send env (n + List.length rs) r) then 1 else 0).
Proof.
  induction rs as [|x rs IH]; intros n; simpl.
  - replace (n + 0) with n by lia. destruct (is_delivered _); lia.
  - rewrite IH. replace (S n + List.length rs) with (n + S (List.length rs)) by lia.
    destruct (is_delivered (send env n x)), (is_delivered _); lia.
Qed.

(** In every run, [success_count] is the number of requests sent that the
    webhook answered with an accepted status (200 to 299) and a JSON
    object. *)
Theorem run_success_count (env : Env) (feeds : list FeedInfo) :
  success_count (state_of (run env feeds))
  = delivered_from env 0 (requests (state_of (run env feeds))).
Proof.
  apply (run_keeps env
           (fun st => success_count st = delivered_from env 0 (requests st)));
    [|reflexivity].
  intros source item st H. unfold process_item, post_to_webhook.
  destruct (parse_rss_item item source []) as [a|]; [|exact H].
  cbv zeta. cbn [requests total_articles success_count handled].
  destruct (send env (List.length (requests st))
              (webhook_request env
                 (utcnow env (2 * List.length (requests st)))
                 (utcnow env (2 * List.length (requests st) + 1)) a))
    as [| |status [|body]] eqn:E;
    try destruct (accepted status) eqn:A;
    cbn [state_of requests success_count];
    rewrite delivered_from_app; cbn [Nat.add]; rewrite E; cbn [is_delivered];
    rewrite ?A; lia.
Qed.

Lemma text_eqb_length (a b : text) :
  List.length a <> List.length b -> text_eqb a b = false.
Proof.
  intros H. unfold text_eqb. destruct (text_eq_dec a b) as [->|]; [|reflexivity].
  contradiction.
Qed.

(** Of the fifteen stop words only [with] and [from] can remove a tag: the
    others have fewer than four letters, and no candidate is that short. *)
Theorem generate_tags_effective_stop_words (title : text) :
  generate_tags title =
  firstn 5
    (filter (fun w => negb (text_eqb w (txt "with") || text_eqb w (txt "from")))
            (alphabetic_words (lower title))).
Proof.
  rewrite generate_tags_words. unfold tags_of_alphabetic_words. f_equal.
  apply filter_ext_in. intros w Hw. f_equal.
  unfold alphabetic_words in Hw. apply filter_In in Hw.
  destruct Hw as [_ Hk]. apply andb_true_iff in Hk. destruct Hk as [_ Hlen].
  apply Nat.leb_le in Hlen. unfold is_stop_word, stop_words.
  cbn [map existsb].
  rewrite !(text_eqb_length w (txt "the")), !(text_eqb_length w (txt "a")),
    !(text_eqb_length w (txt "an")), !(text_eqb_length w (txt "is")),
    !(text_eqb_length w (txt "in")), !(text_eqb_length w (txt "on")),
    !(text_eqb_length w (txt "at")), !(text_eqb_length w (txt "for")),
    !(text_eqb_length w (txt "to")), !(text_eqb_length w (txt "of")),
    !(text_eqb_length w (txt "and")), !(text_eqb_length w (txt "or")),
    !(text_eqb_length w (txt "by")) by (simpl; lia).
  cbn [orb]. now rewrite orb_false_r.
Qed.
